(** * Task dependency graph plugin: extraction and markdown mutation

    A shallow embedding of [src/main.ts] (class [MyPlugin]): the checklist
    parser and collection builder [getTasksFromNotes], the projection part of
    [renderGraph], and the two markdown mutators [toggleTaskCompletion] and
    [updateTaskDependency], together with the properties the specification
    states about them.

    Modelling conventions.
    - A JavaScript string is the list of its UTF-16 code units, each an [N];
      the literals of the source are ASCII, one code unit per character.
    - The vault is the list of the contents of its markdown files, in the
      order of [getMarkdownFiles]; a [TFile] handle is a position in it.
    - The [uniqueId] counter is an [N] (the source holds it in a double, which
      is exact far beyond any number of lines a vault can have).
    - The asynchronous reads and writes run one after the other, as the
      [await]s of the source make them. *)

From Stdlib Require Import Strings.String Strings.Ascii.
From Stdlib Require Import Numbers.DecimalString Numbers.DecimalN.
From Stdlib Require Import List NArith ZArith Bool Arith Lia.
Import ListNotations.

Local Open Scope N_scope.

(* ================================================================== *)
(** ** JavaScript strings *)
(* ================================================================== *)

Module JS.

(** A code unit, and a string. *)
Abbreviation char := N (only parsing).
Abbreviation str := (list N) (only parsing).

(** A source literal, as code units. *)
Definition lit (s : string) : str := map N_of_ascii (list_ascii_of_string s).
Arguments lit s%_string.

(** [LineTerminator] of ECMAScript: LF, CR, LS, PS. *)
Definition is_line_terminator (c : char) : bool :=
  (c =? 10) || (c =? 13) || (c =? 8232) || (c =? 8233).

(** What [String.prototype.trim] strips: [WhiteSpace] and [LineTerminator]. *)
Definition is_ws (c : char) : bool :=
  ((9 <=? c) && (c <=? 13)) || (c =? 32) || (c =? 160) || (c =? 5760)
  || ((8192 <=? c) && (c <=? 8202)) || (c =? 8232) || (c =? 8233)
  || (c =? 8239) || (c =? 8287) || (c =? 12288) || (c =? 65279).

(** The class [\w] (no [i], no [u] flag): [A-Za-z0-9_]. *)
Definition is_word (c : char) : bool :=
  ((48 <=? c) && (c <=? 57)) || ((65 <=? c) && (c <=? 90)) || (c =? 95)
  || ((97 <=? c) && (c <=? 122)).

Definition is_chr (a : char) : char -> bool := fun c => c =? a.

(** [s.startsWith(p)] *)
Fixpoint startsWith (s p : str) {struct p} : bool :=
  match p with
  | [] => true
  | a :: p' =>
      match s with
      | [] => false
      | b :: s' => (b =? a) && startsWith s' p'
      end
  end.

(** [s.includes(p)] *)
Fixpoint includes (s p : str) : bool :=
  startsWith s p || match s with [] => false | _ :: s' => includes s' p end.

(** [s.split('\n')] *)
Fixpoint split_nl (s : str) : list str :=
  match s with
  | [] => [[]]
  | c :: s' =>
      if c =? 10 then [] :: split_nl s'
      else match split_nl s' with
           | l :: ls => (c :: l) :: ls
           | [] => [[c]]
           end
  end.

Fixpoint trimStart (s : str) : str :=
  match s with
  | [] => []
  | c :: s' => if is_ws c then trimStart s' else s
  end.

Definition trimEnd (s : str) : str := rev (trimStart (rev s)).

(** [s.trim()] *)
Definition trim (s : str) : str := trimEnd (trimStart s).

(** [s.slice(b, e)] with possibly negative indices. *)
Definition slice (s : str) (b e : Z) : str :=
  let len := Z.of_nat (length s) in
  let from := if (b <? 0)%Z then Z.max (len + b) 0 else Z.min b len in
  let to := if (e <? 0)%Z then Z.max (len + e) 0 else Z.min e len in
  firstn (Z.to_nat (to - from)) (skipn (Z.to_nat from) s).

(** [ToString] of a non-negative integer below 1e21: its decimal digits. *)
Definition to_string (n : N) : str := lit (NilZero.string_of_uint (N.to_uint n)).

(** *** The four searching regular expressions

    Each of [/- \[[ x]\] (.+)/], [/\[id:(\w+)\]/], [/\[dependsOn:(\w+)\]/g]
    and [/\[[^\]]+\]/g] is a fixed-length prefix of one-character classes, a
    greedy run [(cls)+], and a closing literal that no character of [cls]
    matches (or no closing literal at all).  For such an expression the
    greedy run is the only candidate at a start position: giving characters
    back can only put a [cls] character where the closing literal is due. *)

Record regex := {
  re_open : list (char -> bool);
  re_cls : char -> bool;
  re_close : list (char -> bool)
}.

(** One match: the whole matched text, capture group 1, and the input left
    after the match. *)
Record rmatch := { whole : str; group1 : str; rest : str }.

Fixpoint eat (pat : list (char -> bool)) (s : str) {struct pat}
  : option (str * str) :=
  match pat with
  | [] => Some ([], s)
  | p :: pat' =>
      match s with
      | [] => None
      | c :: s' =>
          if p c then
            match eat pat' s' with
            | Some (m, r) => Some (c :: m, r)
            | None => None
            end
          else None
      end
  end.

Fixpoint span (cls : char -> bool) (s : str) : str * str :=
  match s with
  | [] => ([], [])
  | c :: s' =>
      if cls c then let (run, r) := span cls s' in (c :: run, r)
      else ([], s)
  end.

(** The match that starts at the first character of [s], if any. *)
Definition exec_at (re : regex) (s : str) : option rmatch :=
  match eat (re_open re) s with
  | None => None
  | Some (m1, s1) =>
      match span (re_cls re) s1 with
      | ([], _) => None
      | (run, s2) =>
          match eat (re_close re) s2 with
          | None => None
          | Some (m2, s3) =>
              Some {| whole := m1 ++ run ++ m2; group1 := run; rest := s3 |}
          end
      end
  end.

(** [s.match(re)] for an expression without the [g] flag: the leftmost
    match. *)
Fixpoint exec (re : regex) (s : str) : option rmatch :=
  match exec_at re s with
  | Some m => Some m
  | None => match s with [] => None | _ :: s' => exec re s' end
  end.

(** [s.match(re)] with the [g] flag: every match, left to right, the search
    resuming where the previous match ended ([skip] counts the characters of
    the previous match still to step over).  [null] is the empty list. *)
Fixpoint match_all_from (skip : nat) (re : regex) (s : str) : list str :=
  match s with
  | [] => []
  | _ :: s' =>
      match skip with
      | S k => match_all_from k re s'
      | O =>
          match exec_at re s with
          | Some m => whole m :: match_all_from (length (whole m) - 1) re s'
          | None => match_all_from 0 re s'
          end
      end
  end.

Definition match_all (re : regex) (s : str) : list str := match_all_from 0 re s.

(** [s.replace(re, '')] with the [g] flag. *)
Fixpoint remove_all_from (skip : nat) (re : regex) (s : str) : str :=
  match s with
  | [] => []
  | c :: s' =>
      match skip with
      | S k => remove_all_from k re s'
      | O =>
          match exec_at re s with
          | Some m => remove_all_from (length (whole m) - 1) re s'
          | None => c :: remove_all_from 0 re s'
          end
      end
  end.

Definition remove_all (re : regex) (s : str) : str := remove_all_from 0 re s.

(** *** Replacement templates

    [GetSubstitution] for a pattern without capture groups: [$$], [$&],
    [$`] and [$'] are expanded; every other [$] stands for itself. *)
Fixpoint getSubstitution (matched before after template : str) : str :=
  match template with
  | [] => []
  | c :: t =>
      if c =? 36 then
        match t with
        | d :: t' =>
            if d =? 36 then 36 :: getSubstitution matched before after t'
            else if d =? 38 then matched ++ getSubstitution matched before after t'
            else if d =? 96 then before ++ getSubstitution matched before after t'
            else if d =? 39 then after ++ getSubstitution matched before after t'
            else c :: getSubstitution matched before after t
        | [] => [c]
        end
      else c :: getSubstitution matched before after t
  end.

(** [s.replace(p, template)] for a string pattern [p]: the first occurrence. *)
Fixpoint replace_from (before s p template : str) : str :=
  if startsWith s p then
    rev before ++ getSubstitution p (rev before) (skipn (length p) s) template
               ++ skipn (length p) s
  else match s with
       | [] => rev before
       | c :: s' => replace_from (c :: before) s' p template
       end.

Definition replace (s p template : str) : str := replace_from [] s p template.

(** [s.replace(/\]$/, template)]: without the [m] flag [$] holds at the end
    of the input only, so the one possible match is a final [']']. *)
Definition replace_final_bracket (s template : str) : str :=
  match rev s with
  | c :: r =>
      if c =? 93 then rev r ++ getSubstitution [93] (rev r) [] template
      else s
  | [] => s
  end.

End JS.

Import JS.

(* ================================================================== *)
(** ** The plugin *)
(* ================================================================== *)

(** [interface Task] *)
Record Task := {
  id : str;
  name : str;
  dependencies : list str;
  completed : bool
}.

(** [/- \[[ x]\] (.+)/] *)
Definition re_task : regex :=
  {| re_open := [is_chr 45; is_chr 32; is_chr 91;
                 (fun c => (c =? 32) || (c =? 120)); is_chr 93; is_chr 32];
     re_cls := fun c => negb (is_line_terminator c);
     re_close := [] |}.

(** [/\[id:(\w+)\]/] *)
Definition re_id : regex :=
  {| re_open := map is_chr (lit "[id:");
     re_cls := is_word;
     re_close := [is_chr 93] |}.

(** [/\[dependsOn:(\w+)\]/g] *)
Definition re_dependsOn : regex :=
  {| re_open := map is_chr (lit "[dependsOn:");
     re_cls := is_word;
     re_close := [is_chr 93] |}.

(** [/\[[^\]]+\]/g] *)
Definition re_bracketed : regex :=
  {| re_open := [is_chr 91];
     re_cls := fun c => negb (c =? 93);
     re_close := [is_chr 93] |}.

(** *** Extraction: [getTasksFromNotes] *)

(** The three locals of [getTasksFromNotes]; [taskIds] is the [Set], kept as
    the list of its members. *)
Record build := {
  tasks : list Task;
  taskIds : list str;
  uniqueId : N
}.

Definition has (set : list str) (x : str) : bool :=
  existsb (fun y => if list_eq_dec N.eq_dec y x then true else false) set.

(** The body of the [lines.forEach] callback. *)
Definition scan_line (st : build) (line : str) : build :=
  match exec re_task line with
  | None => st
  | Some taskMatch =>
      let taskName := trim (group1 taskMatch) in
      let idMatch := exec re_id taskName in
      let '(taskId, uniqueId') :=
        match idMatch with
        | Some m => (group1 m, uniqueId st)
        | None => (lit "task" ++ to_string (uniqueId st), uniqueId st + 1)
        end in
      let dependsOn :=
        map (fun m => slice m 11 (-1)) (match_all re_dependsOn taskName) in
      let completed := includes line (lit "- [x]") in
      if negb (has (taskIds st) taskId) then
        {| tasks := tasks st ++
                    [{| id := taskId;
                        name := trim (remove_all re_bracketed taskName);
                        dependencies := dependsOn;
                        completed := completed |}];
           taskIds := taskId :: taskIds st;
           uniqueId := uniqueId' |}
      else
        {| tasks := tasks st; taskIds := taskIds st; uniqueId := uniqueId' |}
  end.

(** The body of the [for (const file of files)] loop, on the file's text. *)
Definition scan_file (st : build) (content : str) : build :=
  fold_left scan_line (split_nl content) st.

Definition build0 : build := {| tasks := []; taskIds := []; uniqueId := 1 |}.

(** [getTasksFromNotes], on the contents of the vault's markdown files. *)
Definition getTasksFromNotes (vault : list str) : list Task :=
  tasks (fold_left scan_file vault build0).

(** *** Projection: the node and edge lists of [renderGraph] *)

Record Node := { node_id : str; label : str; color : str }.
Record Edge := { from : str; to : str }.

Definition nodes_of (ts : list Task) : list Node :=
  map (fun task =>
         {| node_id := id task;
            label := name task;
            color := if completed task then lit "#9BE7A4" else lit "#E7A49B" |})
      ts.

Definition edges_of (ts : list Task) : list Edge :=
  flat_map (fun task =>
              map (fun dep => {| from := dep; to := id task |})
                  (dependencies task))
           ts.

(** *** The vault, and the mutators as state-passing programs

    [files] holds the text of each markdown file; [modified] is the log of
    the calls of [vault.modify], oldest first. *)
Record Vault := {
  files : list str;
  modified : list (nat * str)
}.

Definition M (A : Type) : Type := Vault -> A * Vault.

Definition ret {A} (a : A) : M A := fun v => (a, v).
Definition bind {A B} (m : M A) (k : A -> M B) : M B :=
  fun v => let (a, v') := m v in k a v'.

Notation "x <- m ;; k" := (bind m (fun x => k))
  (at level 61, m at next level, right associativity).
Notation "m ;;; k" := (bind m (fun _ => k))
  (at level 61, right associativity).

Fixpoint for_each {A} (xs : list A) (body : A -> M unit) : M unit :=
  match xs with
  | [] => ret tt
  | x :: xs' => body x ;;; for_each xs' body
  end.

Fixpoint set_nth {A} (i : nat) (x : A) (l : list A) : list A :=
  match l with
  | [] => []
  | y :: l' => match i with O => x :: l' | S j => y :: set_nth j x l' end
  end.

Definition getMarkdownFiles : M (list nat) :=
  fun v => (seq 0 (length (files v)), v).

Definition read (file : nat) : M str :=
  fun v => (nth file (files v) [], v).

Definition modify (file : nat) (data : str) : M unit :=
  fun v => (tt, {| files := set_nth file data (files v);
                   modified := modified v ++ [(file, data)] |}).

(** The [for (const line of lines)] loop of [toggleTaskCompletion]: one
    step appends the rewritten line and a newline to [updatedContent]. *)
Definition toggle_step (taskId : str) (updatedContent line : str) : str :=
  if includes line (lit "[id:" ++ taskId ++ lit "]") then
    if startsWith line (lit "- [ ]") then
      updatedContent ++ replace line (lit "- [ ]") (lit "- [x]") ++ [10]
    else if startsWith line (lit "- [x]") then
      updatedContent ++ replace line (lit "- [x]") (lit "- [ ]") ++ [10]
    else
      updatedContent ++ line ++ [10]
  else
    updatedContent ++ line ++ [10].

(** [toggleTaskCompletion]; the closing [showTaskDependencyGraph] only
    rebuilds the display and is left out. *)
Definition toggleTaskCompletion (taskId : str) : M unit :=
  fs <- getMarkdownFiles ;;
  for_each fs (fun file =>
    content <- read file ;;
    let lines := split_nl content in
    let updatedContent := fold_left (toggle_step taskId) lines [] in
    modify file (trim updatedContent)).

(** The [for (const line of lines)] loop of [updateTaskDependency]. *)
Definition dependency_step (fromTaskId toTaskId : str)
                           (updatedContent line : str) : str :=
  if includes line (lit "[id:" ++ toTaskId ++ lit "]") then
    if includes line (lit "[dependsOn:" ++ fromTaskId ++ lit "]") then
      updatedContent ++ line ++ [10]
    else
      updatedContent
        ++ replace_final_bracket line
             (lit " [dependsOn:" ++ fromTaskId ++ lit "]]")
        ++ [10]
  else
    updatedContent ++ line ++ [10].

(** [updateTaskDependency] *)
Definition updateTaskDependency (fromTaskId toTaskId : str) : M unit :=
  fs <- getMarkdownFiles ;;
  for_each fs (fun file =>
    content <- read file ;;
    let lines := split_nl content in
    let updatedContent :=
      fold_left (dependency_step fromTaskId toTaskId) lines [] in
    modify file (trim updatedContent)).

(** A vault with the given file contents and an empty write log. *)
Definition vault_of (contents : list str) : Vault :=
  {| files := contents; modified := [] |}.

(** The file contents after running a mutator on [contents]. *)
Definition after (m : M unit) (contents : list str) : list str :=
  files (snd (m (vault_of contents))).

(* ================================================================== *)
(** ** Derived notions used in the statements *)
(* ================================================================== *)

Definition str_eqb (a b : str) : bool :=
  if list_eq_dec N.eq_dec a b then true else false.

(** Every line of the vault: documents in order, lines in file order. *)
Definition all_lines (vault : list str) : list str := flat_map split_nl vault.

(** Does the parser take the line for a task? *)
Definition recognised (line : str) : bool :=
  match exec re_task line with Some _ => true | None => false end.

(** The value of the line's [[id:...]] tag, as [idMatch] finds it. *)
Definition explicit_id (line : str) : option str :=
  match exec re_task line with
  | None => None
  | Some taskMatch =>
      match exec re_id (trim (group1 taskMatch)) with
      | Some m => Some (group1 m)
      | None => None
      end
  end.

(** The identity synthesized at counter value [n]. *)
Definition synth (n : N) : str := lit "task" ++ to_string n.

(** The task built from the trimmed capture [taskName] at counter value
    [uid], with the counter afterwards; [done] is the completion flag. *)
Definition task_of (taskName : str) (uid : N) (done : bool) : Task * N :=
  let '(taskId, uid') :=
    match exec re_id taskName with
    | Some m => (group1 m, uid)
    | None => (synth uid, uid + 1)
    end in
  ({| id := taskId;
      name := trim (remove_all re_bracketed taskName);
      dependencies :=
        map (fun m => slice m 11 (-1)) (match_all re_dependsOn taskName);
      completed := done |}, uid').

(** What a line yields before [taskIds] is consulted: the task with its
    identity resolved at counter value [uid], and the counter afterwards. *)
Definition candidate (uid : N) (line : str) : option (Task * N) :=
  match exec re_task line with
  | None => None
  | Some taskMatch =>
      Some (task_of (trim (group1 taskMatch)) uid
                    (includes line (lit "- [x]")))
  end.

(** The tasks the lines yield, in order, duplicates of an identity kept. *)
Fixpoint candidates (uid : N) (lines : list str) : list Task :=
  match lines with
  | [] => []
  | line :: rest =>
      match candidate uid line with
      | Some (t, uid') => t :: candidates uid' rest
      | None => candidates uid rest
      end
  end.

(** The first task of a list that carries identity [i]. *)
Definition find_id (i : str) (ts : list Task) : option Task :=
  find (fun t => str_eqb (id t) i) ts.

Definition id_tag (taskId : str) : str := lit "[id:" ++ taskId ++ lit "]".
Definition dependsOn_tag (taskId : str) : str :=
  lit "[dependsOn:" ++ taskId ++ lit "]".

(** The line [toggleTaskCompletion] writes for [line]. *)
Definition toggle_line (taskId line : str) : str :=
  if includes line (id_tag taskId) then
    if startsWith line (lit "- [ ]") then lit "- [x]" ++ skipn 5 line
    else if startsWith line (lit "- [x]") then lit "- [ ]" ++ skipn 5 line
    else line
  else line.

(** The line [updateTaskDependency] writes for [line]. *)
Definition dependency_line (fromTaskId toTaskId line : str) : str :=
  if includes line (id_tag toTaskId) then
    if includes line (dependsOn_tag fromTaskId) then line
    else replace_final_bracket line
           (lit " [dependsOn:" ++ fromTaskId ++ lit "]]")
  else line.

(** Lines put back together the way both mutators do: each followed by a
    newline. *)
Definition rebuild (lines : list str) : str :=
  concat (map (fun l => l ++ [10]) lines).

Definition toggle_content (taskId content : str) : str :=
  trim (rebuild (map (toggle_line taskId) (split_nl content))).

Definition dependency_content (fromTaskId toTaskId content : str) : str :=
  trim (rebuild (map (dependency_line fromTaskId toTaskId) (split_nl content))).

(** Lines joined by single newlines. *)
Fixpoint join_nl (lines : list str) : str :=
  match lines with
  | [] => []
  | [l] => l
  | l :: ls => l ++ 10 :: join_nl ls
  end.

(** A text [trim] leaves alone. *)
Definition trimmed (s : str) : Prop := trim s = s.

(** An identity as the id and dependency tags can carry it: word characters
    only. *)
Definition word (s : str) : Prop := forallb is_word s = true.

(** The invariant of the scan: [taskIds] holds exactly the identities of
    [tasks], and these are pairwise distinct. *)
Definition consistent (st : build) : Prop :=
  (forall x, In x (taskIds st) <-> In x (map id (tasks st)))
  /\ NoDup (map id (tasks st)).

(** No line of the vault carries an identity tag the parser finds. *)
Definition no_explicit_ids (vault : list str) : bool :=
  forallb (fun line => match explicit_id line with None => true | Some _ => false end)
          (all_lines vault).

(** The identities [task1], [task2], ... up to [task<n>]. *)
Definition fallback_ids (n : nat) : list str :=
  map (fun k => synth (N.of_nat k)) (seq 1 n).

(** The text opens with a checklist marker and the space after it. *)
Definition marker_space (v : str) : bool :=
  startsWith v (lit "- [ ] ") || startsWith v (lit "- [x] ").

(** The reading of "a checklist item of the form [- [ ] ...] or
    [- [x] ...]" as a shape of the whole line. *)
Definition checklist_form (line : str) : Prop :=
  exists text, line = lit "- [ ] " ++ text \/ line = lit "- [x] " ++ text.




(** A text without a newline: one line. *)
Definition no_nl (l : str) : Prop := forallb (fun c => negb (c =? 10)) l = true.

(** Both ends of the text are free of white space (or the text is empty). *)
Definition ends_ok (s : str) : bool :=
  match s with [] => true | a :: _ => negb (is_ws a) end
  && match rev s with [] => true | b :: _ => negb (is_ws b) end.

(** A line rewrite that keeps the first and the last character of every
    line (and keeps an empty line empty). *)
Definition keeps_ends (f : str -> str) : Prop :=
  forall l, hd_error (f l) = hd_error l
            /\ hd_error (rev (f l)) = hd_error (rev l).

(** A line rewrite that never puts a newline into a line. *)
Definition keeps_lines (f : str -> str) : Prop :=
  forall l, no_nl l -> no_nl (f l).

(** The line [pre ++ [id:<toId>]] after the final bracket has been
    replaced by [ [dependsOn:<fromId>]]]. *)
Definition spliced_line (pre fromId toId : str) : str :=
  pre ++ lit "[id:" ++ toId ++ lit " [dependsOn:" ++ fromId ++ lit "]]".

(** Does the task expression match at the very start of [v]? *)
Definition matches_here (v : str) : bool :=
  match exec_at re_task v with Some _ => true | None => false end.

(** *** The edge hook of [renderGraph]

    [manipulation.addEdge] answers through [callback] and may start
    [updateTaskDependency]; the value returned here is what [callback]
    receives ([null] is [None]).  The [alert] is display only. *)
Definition addEdge (edgeData : Edge) : M (option Edge) :=
  if str_eqb (from edgeData) (to edgeData) then ret None
  else updateTaskDependency (from edgeData) (to edgeData) ;;;
       ret (Some edgeData).

(** *** The earlier version of the plugin ([src/unnamed/part_000])

    There a task has no completion flag and a node no colour; the scan is
    otherwise written the same way. *)
Module V0.

Record Task := {
  id : str;
  name : str;
  dependencies : list str
}.

Record build := {
  tasks : list Task;
  taskIds : list str;
  uniqueId : N
}.

Definition scan_line (st : build) (line : str) : build :=
  match exec re_task line with
  | None => st
  | Some taskMatch =>
      let taskName := trim (group1 taskMatch) in
      let idMatch := exec re_id taskName in
      let '(taskId, uniqueId') :=
        match idMatch with
        | Some m => (group1 m, uniqueId st)
        | None => (lit "task" ++ to_string (uniqueId st), uniqueId st + 1)
        end in
      let dependsOn :=
        map (fun m => slice m 11 (-1)) (match_all re_dependsOn taskName) in
      if negb (has (taskIds st) taskId) then
        {| tasks := tasks st ++
                    [{| id := taskId;
                        name := trim (remove_all re_bracketed taskName);
                        dependencies := dependsOn |}];
           taskIds := taskId :: taskIds st;
           uniqueId := uniqueId' |}
      else
        {| tasks := tasks st; taskIds := taskIds st; uniqueId := uniqueId' |}
  end.

Definition scan_file (st : build) (content : str) : build :=
  fold_left scan_line (split_nl content) st.

Definition build0 : build := {| tasks := []; taskIds := []; uniqueId := 1 |}.

Definition getTasksFromNotes (vault : list str) : list Task :=
  tasks (fold_left scan_file vault build0).

Record Node := { node_id : str; label : str }.

Definition nodes_of (ts : list Task) : list Node :=
  map (fun task => {| node_id := id task; label := name task |}) ts.

Definition edges_of (ts : list Task) : list Edge :=
  flat_map (fun task =>
              map (fun dep => {| from := dep; to := id task |})
                  (dependencies task))
           ts.

End V0.

(** A task of [main.ts] as the earlier version has it. *)
Definition forget_flag (t : Task) : V0.Task :=
  {| V0.id := id t; V0.name := name t; V0.dependencies := dependencies t |}.

(** The fields of a task other than its completion flag. *)
Definition unflagged (t : Task) : str * str * list str :=
  (id t, name t, dependencies t).

(** The marker at the head of a line swapped, a line without one kept. *)
Definition swap_marker (line : str) : str :=
  if startsWith line (lit "- [ ]") then lit "- [x]" ++ skipn 5 line
  else if startsWith line (lit "- [x]") then lit "- [ ]" ++ skipn 5 line
  else line.

(** The elements of [ids] in the order of their first occurrence, those of
    [seen] left out. *)
Fixpoint fresh (seen ids : list str) : list str :=
  match ids with
  | [] => []
  | i :: rest =>
      if has seen i then fresh seen rest else i :: fresh (i :: seen) rest
  end.

(** A text without a line terminator. *)
Definition one_line (s : str) : Prop :=
  forallb (fun c => negb (is_line_terminator c)) s = true.

(** A bracketed tag as [/\[[^\]]+\]/] matches it: an opening bracket, at
    least one character other than a closing bracket, a closing bracket. *)
Definition has_bracketed_tag (s : str) : Prop :=
  exists u w v,
    w <> [] /\ forallb (fun c => negb (c =? 93)) w = true
    /\ s = u ++ 91 :: w ++ 93 :: v.




(** The locals of [getTasksFromNotes] when the scan has gone through the
    lines [before]. *)
Definition scan_before (before : list str) : build :=
  fold_left scan_line before build0.

(** After the lines [before], [line] is a task line and [taskIds] does not
    yet hold the identity read from it: the test [!taskIds.has(taskId)]
    succeeds. *)
Definition yields_new_id (before : list str) (line : str) : bool :=
  match candidate (uniqueId (scan_before before)) line with
  | Some (t, _) => negb (has (taskIds (scan_before before)) (id t))
  | None => false
  end.

(** *** Sample vaults *)

(** Two documents; [t1] depends on [t2]. *)
Definition vault_tagged : list str :=
  [join_nl [lit "- [ ] a [id:t1] [dependsOn:t2]"; lit "- [x] b [id:t2]";
            lit "notes"];
   lit "- [ ] c"].

(** Two documents without any identity tag. *)
Definition vault_untagged : list str :=
  [join_nl [lit "- [ ] wash"; lit "notes"; lit "- [x] dry"];
   lit "  - [ ] fold"].





(** A task that depends on an identity no task has; a later line repeats
    the task's identity. *)
Definition vault_ghost : list str :=
  [join_nl [lit "- [ ] Pack"; lit "notes";
            lit "- [ ] Ship it [id:t1] [dependsOn:ghost]"];
   lit "- [x] Done [id:t1]"].

(* ================================================================== *)
(** ** Proof tactics *)
(* ================================================================== *)

Ltac norm_lit :=
  repeat match goal with
         | |- context [lit ?s] =>
             let v := eval vm_compute in (lit s) in change (lit s) with v
         end.

Ltac split_tests :=
  repeat match goal with
         | |- context [N.eqb ?a ?b] => destruct (N.eqb_spec a b); subst; cbn
         end.

(* ================================================================== *)
(** ** Strings: prefixes, occurrences, literals *)
(* ================================================================== *)

Lemma str_eqb_eq a b : str_eqb a b = true <-> a = b.
Proof. unfold str_eqb. destruct (list_eq_dec N.eq_dec a b); split; congruence. Qed.

Lemma str_eqb_refl a : str_eqb a a = true.
Proof. apply str_eqb_eq. reflexivity. Qed.

Lemma str_eqb_neq a b : a <> b -> str_eqb a b = false.
Proof. unfold str_eqb. destruct (list_eq_dec N.eq_dec a b); congruence. Qed.

Lemma has_In set x : has set x = true <-> In x set.
Proof.
  unfold has. rewrite existsb_exists. split.
  - intros [y [Hy E]]. destruct (list_eq_dec N.eq_dec y x) as [e|]; [|discriminate].
    rewrite <- e. exact Hy.
  - intros H. exists x. split; [assumption|].
    destruct (list_eq_dec N.eq_dec x x); congruence.
Qed.

Lemma has_false set x : has set x = false <-> ~ In x set.
Proof.
  rewrite <- has_In. destruct (has set x); split; congruence.
Qed.

Lemma startsWith_app p s : startsWith (p ++ s) p = true.
Proof.
  induction p as [|a p IH]; simpl; [reflexivity|].
  rewrite N.eqb_refl. exact IH.
Qed.

Lemma startsWith_inv s p : startsWith s p = true -> s = p ++ skipn (length p) s.
Proof.
  revert s. induction p as [|a p IH]; intros s H; simpl in *; [reflexivity|].
  destruct s as [|b s]; [discriminate|].
  apply andb_true_iff in H. destruct H as [E H].
  apply N.eqb_eq in E. subst b. f_equal. apply IH. exact H.
Qed.

Lemma startsWith_iff s p : startsWith s p = true <-> exists r, s = p ++ r.
Proof.
  split.
  - intros H. eexists. apply startsWith_inv. exact H.
  - intros [r ->]. apply startsWith_app.
Qed.

Lemma includes_startsWith s p : startsWith s p = true -> includes s p = true.
Proof. intros H. destruct s; simpl; rewrite H; reflexivity. Qed.

Lemma includes_iff s p : includes s p = true <-> exists u v, s = u ++ p ++ v.
Proof.
  split.
  - induction s as [|c s IH]; simpl; intros H.
    + rewrite orb_false_r in H. apply startsWith_iff in H.
      destruct H as [r Hr]. exists [], r. exact Hr.
    + apply orb_true_iff in H. destruct H as [H|H].
      * apply startsWith_iff in H. destruct H as [r Hr]. exists [], r. exact Hr.
      * destruct (IH H) as [u [v E]]. exists (c :: u), v. rewrite E. reflexivity.
  - intros [u [v ->]]. induction u as [|c u IH]; simpl.
    + apply includes_startsWith, startsWith_app.
    + rewrite IH. apply orb_true_r.
Qed.

Lemma includes_trans s m p :
  includes s m = true -> includes m p = true -> includes s p = true.
Proof.
  rewrite !includes_iff. intros [u [v ->]] [u' [v' ->]].
  exists (u ++ u'), (v' ++ v). rewrite <- !app_assoc. reflexivity.
Qed.

Lemma includes_cons_head c s p :
  includes (c :: s) p = startsWith (c :: s) p || includes s p.
Proof. reflexivity. Qed.

(** A search for something that starts with [a] steps over a character
    that is not [a]. *)
Lemma includes_skip c s a p :
  c <> a -> includes (c :: s) (a :: p) = includes s (a :: p).
Proof.
  intros H. rewrite includes_cons_head. simpl startsWith.
  apply N.eqb_neq in H. rewrite H. reflexivity.
Qed.

Lemma includes_skip_all u s a p :
  forallb (fun c => negb (c =? a)) u = true ->
  includes (u ++ s) (a :: p) = includes s (a :: p).
Proof.
  induction u as [|c u IH]; simpl; intros H; [reflexivity|].
  apply andb_true_iff in H. destruct H as [Hc Hu].
  apply negb_true_iff in Hc. rewrite Hc. simpl. apply IH. exact Hu.
Qed.

Lemma id_tag_eq t : id_tag t = 91 :: 105 :: 100 :: 58 :: t ++ [93].
Proof. reflexivity. Qed.

Lemma dependsOn_tag_eq t :
  dependsOn_tag t =
  91 :: 100 :: 101 :: 112 :: 101 :: 110 :: 100 :: 115 :: 79 :: 110 :: 58 :: t ++ [93].
Proof. reflexivity. Qed.

(** Word characters are none of the punctuation the tags are made of. *)
Lemma is_word_not c :
  is_word c = true ->
  c <> 91 /\ c <> 93 /\ c <> 32 /\ c <> 10 /\ c <> 36 /\ c <> 58 /\ c <> 45.
Proof.
  unfold is_word. intros H.
  repeat (apply orb_true_iff in H; destruct H as [H|H]);
    try (apply andb_true_iff in H; destruct H as [H1 H2];
         apply N.leb_le in H1; apply N.leb_le in H2);
    try apply N.eqb_eq in H; lia.
Qed.

(* ================================================================== *)
(** ** Extraction *)
(* ================================================================== *)

(** [scan_line] is [candidate] followed by the membership test. *)
Lemma scan_line_candidate st line :
  scan_line st line =
  match candidate (uniqueId st) line with
  | None => st
  | Some (t, uid') =>
      if has (taskIds st) (id t) then
        {| tasks := tasks st; taskIds := taskIds st; uniqueId := uid' |}
      else
        {| tasks := tasks st ++ [t]; taskIds := id t :: taskIds st;
           uniqueId := uid' |}
  end.
Proof.
  unfold scan_line, candidate, task_of, synth.
  destruct (exec re_task line) as [m|]; [|reflexivity].
  destruct (exec re_id (trim (group1 m))) as [m'|]; simpl;
    match goal with |- context [has ?a ?b] => destruct (has a b) end;
    reflexivity.
Qed.

Lemma scan_files_lines vault st :
  fold_left scan_file vault st = fold_left scan_line (all_lines vault) st.
Proof.
  revert st. induction vault as [|d vault IH]; intros st; simpl; [reflexivity|].
  unfold all_lines in *. rewrite fold_left_app. apply IH.
Qed.

Lemma find_id_app i ts t :
  find_id i (ts ++ [t]) =
  match find_id i ts with
  | Some x => Some x
  | None => if str_eqb (id t) i then Some t else None
  end.
Proof.
  unfold find_id. induction ts as [|a ts IH]; simpl; [reflexivity|].
  destruct (str_eqb (id a) i); [reflexivity|exact IH].
Qed.

Lemma find_id_None i ts : find_id i ts = None <-> ~ In i (map id ts).
Proof.
  unfold find_id. induction ts as [|a ts IH]; simpl.
  - tauto.
  - destruct (str_eqb (id a) i) eqn:E.
    + apply str_eqb_eq in E. split; [discriminate|]. intros H. elim H. now left.
    + rewrite IH. split.
      * intros H [H1|H1]; [|tauto]. rewrite H1, str_eqb_refl in E. discriminate.
      * tauto.
Qed.

Lemma consistent_build0 : consistent build0.
Proof. split; [simpl; tauto|constructor]. Qed.

Lemma scan_lines_first lines :
  forall st, consistent st ->
  consistent (fold_left scan_line lines st)
  /\ forall i,
       find_id i (tasks (fold_left scan_line lines st)) =
       match find_id i (tasks st) with
       | Some t => Some t
       | None => find_id i (candidates (uniqueId st) lines)
       end.
Proof.
  induction lines as [|line lines IH]; intros st Hst; simpl.
  - split; [assumption|]. intros i. destruct (find_id i (tasks st)); reflexivity.
  - rewrite scan_line_candidate.
    destruct (candidate (uniqueId st) line) as [[t uid']|].
    + destruct (has (taskIds st) (id t)) eqn:Hh.
      * (* the identity is taken: the line is dropped *)
        apply has_In in Hh. destruct Hst as [Hids Hnd].
        match goal with |- context [fold_left _ _ ?s] =>
          destruct (IH s) as [Hc Hf] end.
        { split; assumption. }
        split; [exact Hc|]. intros i. rewrite Hf. simpl.
        destruct (find_id i (tasks st)) eqn:Ei; [reflexivity|].
        unfold find_id at 2. simpl. fold (find_id i (candidates uid' lines)).
        rewrite str_eqb_neq; [reflexivity|].
        intros E. subst i. apply find_id_None in Ei. apply Ei, Hids, Hh.
      * (* a new identity: the task is appended *)
        apply has_false in Hh. destruct Hst as [Hids Hnd].
        match goal with |- context [fold_left _ _ ?s] =>
          destruct (IH s) as [Hc Hf] end.
        { split; simpl.
          - intros x. rewrite map_app, in_app_iff. simpl. rewrite <- Hids. tauto.
          - rewrite map_app. simpl.
            apply NoDup_rev in Hnd. rewrite <- (rev_involutive (_ ++ _)).
            apply NoDup_rev. rewrite rev_app_distr. simpl. constructor.
            + rewrite <- in_rev, <- Hids. exact Hh.
            + exact Hnd. }
        split; [exact Hc|]. intros i. rewrite Hf. simpl.
        rewrite find_id_app.
        destruct (find_id i (tasks st)); [reflexivity|].
        unfold find_id at 2. simpl. fold (find_id i (candidates uid' lines)).
        destruct (str_eqb (id t) i); reflexivity.
    + apply IH. exact Hst.
Qed.

(** *** Projection *)
Lemma nodes_of_ids ts : map node_id (nodes_of ts) = map id ts.
Proof. unfold nodes_of. rewrite map_map. reflexivity. Qed.

Lemma edges_of_In ts t dep :
  In t ts -> In dep (dependencies t) ->
  In {| from := dep; to := id t |} (edges_of ts).
Proof.
  intros Ht Hd. unfold edges_of. apply in_flat_map. exists t.
  split; [exact Ht|]. apply in_map_iff. exists dep. split; [reflexivity|exact Hd].
Qed.

(** *** Synthesized identities *)
Lemma lit_inj a b : lit a = lit b -> a = b.
Proof.
  unfold lit. intros H.
  rewrite <- (string_of_list_ascii_of_string a), <- (string_of_list_ascii_of_string b).
  f_equal. revert H.
  generalize (list_ascii_of_string a) (list_ascii_of_string b).
  induction l as [|x l IH]; intros [|y l'] H; simpl in H; try discriminate.
  - reflexivity.
  - injection H as Hx Hl. f_equal.
    + rewrite <- (ascii_N_embedding x), <- (ascii_N_embedding y), Hx. reflexivity.
    + apply IH. exact Hl.
Qed.

Lemma to_uint_nonnil n : N.to_uint n <> Decimal.Nil.
Proof.
  destruct n; simpl; [discriminate|]. apply DecimalPos.Unsigned.to_uint_nonnil.
Qed.

Lemma to_string_inj a b : to_string a = to_string b -> a = b.
Proof.
  unfold to_string. intros H. apply lit_inj in H.
  apply DecimalN.Unsigned.to_uint_inj.
  assert (Ha := NilZero.usu _ (to_uint_nonnil a)).
  assert (Hb := NilZero.usu _ (to_uint_nonnil b)).
  rewrite H in Ha. congruence.
Qed.

Lemma synth_inj a b : synth a = synth b -> a = b.
Proof.
  unfold synth. intros H. apply app_inv_head in H. apply to_string_inj. exact H.
Qed.

Lemma candidate_unrecognised uid line :
  recognised line = false -> candidate uid line = None.
Proof.
  unfold recognised, candidate. destruct (exec re_task line); [discriminate|reflexivity].
Qed.

Lemma candidate_untagged uid line :
  explicit_id line = None -> recognised line = true ->
  exists t, candidate uid line = Some (t, uid + 1) /\ id t = synth uid.
Proof.
  unfold explicit_id, recognised, candidate, task_of.
  destruct (exec re_task line) as [m|]; [|discriminate].
  destruct (exec re_id (trim (group1 m))); [discriminate|].
  intros _ _. eexists. split; reflexivity.
Qed.

Lemma scan_lines_untagged lines :
  forall st k,
    (forall line, In line lines -> explicit_id line = None) ->
    uniqueId st = N.of_nat (S k) ->
    (forall x, In x (taskIds st) ->
               exists j, (j <= k)%nat /\ x = synth (N.of_nat j)) ->
    map id (tasks (fold_left scan_line lines st)) =
    map id (tasks st)
      ++ map (fun j => synth (N.of_nat j))
             (seq (S k) (length (filter recognised lines))).
Proof.
  induction lines as [|line lines IH]; intros st k Hun Hu Hids.
  - simpl. rewrite app_nil_r. reflexivity.
  - cbn [fold_left filter]. rewrite scan_line_candidate.
    assert (Hl : explicit_id line = None) by (apply Hun; now left).
    assert (Hr : forall l, In l lines -> explicit_id l = None)
      by (intros l Hin; apply Hun; now right).
    destruct (recognised line) eqn:Er.
    + destruct (candidate_untagged (uniqueId st) line Hl Er) as [t [Hc Hid]].
      rewrite Hc.
      destruct (has (taskIds st) (id t)) eqn:Hh.
      { apply has_In in Hh. destruct (Hids _ Hh) as [j [Hj E]].
        rewrite Hid, Hu in E. apply synth_inj in E. lia. }
      rewrite (IH _ (S k)).
      * cbn [tasks length seq map]. rewrite map_app, <- app_assoc. cbn [map app].
        rewrite Hid, Hu. reflexivity.
      * exact Hr.
      * cbn [uniqueId]. rewrite Hu. lia.
      * cbn [taskIds]. intros x [Hx|Hx].
        -- exists (S k). split; [lia|]. rewrite <- Hx, Hid, Hu. reflexivity.
        -- destruct (Hids _ Hx) as [j [Hj E]]. exists j. split; [lia|exact E].
    + rewrite (candidate_unrecognised _ _ Er). apply IH; assumption.
Qed.

(* ================================================================== *)
(** ** The regular expressions *)
(* ================================================================== *)

Lemma span_app cls s :
  fst (span cls s) ++ snd (span cls s) = s.
Proof.
  induction s as [|c s IH]; simpl; [reflexivity|].
  destruct (cls c); [|reflexivity].
  destruct (span cls s) as [run r]. simpl in *. f_equal. exact IH.
Qed.

Lemma span_run cls s : forallb cls (fst (span cls s)) = true.
Proof.
  induction s as [|c s IH]; simpl; [reflexivity|].
  destruct (cls c) eqn:E; [|reflexivity].
  destruct (span cls s) as [run r]. simpl in *. rewrite E. exact IH.
Qed.

(** The run of a text made of class characters followed by one that is not. *)
Lemma span_exact cls run r :
  forallb cls run = true ->
  match r with [] => True | c :: _ => cls c = false end ->
  span cls (run ++ r) = (run, r).
Proof.
  intros Hrun Hr. induction run as [|c run IH]; simpl in *.
  - destruct r as [|c r]; [reflexivity|]. simpl. rewrite Hr. reflexivity.
  - apply andb_true_iff in Hrun. destruct Hrun as [Hc Hrun].
    rewrite Hc, (IH Hrun). reflexivity.
Qed.

Lemma eat_literal p s :
  eat (map is_chr p) s = if startsWith s p then Some (p, skipn (length p) s) else None.
Proof.
  revert s. induction p as [|a p IH]; intros s; simpl; [reflexivity|].
  destruct s as [|b s]; [reflexivity|]. unfold is_chr at 1.
  destruct (b =? a) eqn:E; simpl; [|reflexivity].
  apply N.eqb_eq in E. subst b. rewrite IH.
  destruct (startsWith s p); reflexivity.
Qed.

Lemma eat_task_open v :
  eat (re_open re_task) v =
  if marker_space v then Some (firstn 6 v, skipn 6 v) else None.
Proof.
  unfold marker_space, re_task, is_chr. norm_lit. cbn [re_open].
  destruct v as [|a [|b [|c [|d [|e [|f r]]]]]]; cbn;
    split_tests; try reflexivity; try congruence; try lia.
Qed.

(** [/- \[[ x]\] (.+)/] tried at the head of [v]. *)
Lemma exec_at_task v :
  exec_at re_task v =
  if marker_space v then
    match span (fun c => negb (is_line_terminator c)) (skipn 6 v) with
    | ([], _) => None
    | (run, r) =>
        Some {| whole := firstn 6 v ++ run ++ []; group1 := run; rest := r |}
    end
  else None.
Proof.
  unfold exec_at. rewrite eat_task_open.
  destruct (marker_space v); [|reflexivity].
  cbn [re_cls re_close re_task eat].
  destruct (span _ (skipn 6 v)) as [[|c run] r]; reflexivity.
Qed.

(** A tag expression [/\[<key>:(\w+)\]/] tried at the head of [v]. *)
Lemma exec_at_tag key v :
  exec_at {| re_open := map is_chr key; re_cls := is_word;
             re_close := [is_chr 93] |} v =
  if startsWith v key then
    match span is_word (skipn (length key) v) with
    | ([], _) => None
    | (run, 93 :: r) =>
        Some {| whole := key ++ run ++ [93]; group1 := run; rest := r |}
    | _ => None
    end
  else None.
Proof.
  unfold exec_at. cbn [re_open re_cls re_close]. rewrite eat_literal.
  destruct (startsWith v key); [|reflexivity].
  destruct (span is_word (skipn (length key) v)) as [[|c run] r]; [reflexivity|].
  cbn [eat]. destruct r as [|d r]; [reflexivity|]. unfold is_chr.
  destruct (N.eqb_spec d 93) as [->|Hd]; [reflexivity|].
  destruct d as [|p]; [reflexivity|].
  do 7 (destruct p as [p|p|]; try reflexivity); congruence.
Qed.

(** *** Leftmost search *)
Lemma exec_cons re c s :
  exec re (c :: s) =
  match exec_at re (c :: s) with Some m => Some m | None => exec re s end.
Proof. reflexivity. Qed.

Lemma exec_found re s m :
  exec re s = Some m -> exists u v, s = u ++ v /\ exec_at re v = Some m.
Proof.
  induction s as [|c s IH].
  - simpl. destruct (exec_at re []) eqn:E; [|discriminate].
    intros [= <-]. exists [], []. split; [reflexivity|exact E].
  - rewrite exec_cons. destruct (exec_at re (c :: s)) eqn:E.
    + intros [= <-]. exists [], (c :: s). split; [reflexivity|exact E].
    + intros H. destruct (IH H) as [u [v [Hs Hv]]].
      exists (c :: u), v. split; [rewrite Hs; reflexivity|exact Hv].
Qed.

Lemma exec_some_app re u v m :
  exec_at re v = Some m -> exists m', exec re (u ++ v) = Some m'.
Proof.
  intros H. induction u as [|c u IH].
  - exists m. destruct v; simpl; rewrite H; reflexivity.
  - simpl app. rewrite exec_cons.
    destruct (exec_at re (c :: u ++ v)) as [m1|]; [exists m1; reflexivity|exact IH].
Qed.

Lemma exec_none re s :
  exec re s = None <-> forall u v, s = u ++ v -> exec_at re v = None.
Proof.
  split.
  - intros H u v Hs. destruct (exec_at re v) as [m|] eqn:E; [|reflexivity].
    destruct (exec_some_app re u v m E) as [m' Hm']. congruence.
  - intros H. destruct (exec re s) as [m|] eqn:E; [|reflexivity].
    destruct (exec_found re s m E) as [u [v [Hs Hv]]].
    rewrite (H u v Hs) in Hv. discriminate.
Qed.

(* ================================================================== *)
(** ** The mutators as functions on file contents *)
(* ================================================================== *)

Lemma getSubstitution_plain matched before after template :
  forallb (fun c => negb (c =? 36)) template = true ->
  getSubstitution matched before after template = template.
Proof.
  induction template as [|c t IH]; simpl; intros H; [reflexivity|].
  apply andb_true_iff in H. destruct H as [Hc Ht].
  apply negb_true_iff in Hc. rewrite Hc, (IH Ht). reflexivity.
Qed.

Lemma replace_at_head s p template :
  startsWith s p = true ->
  replace s p template =
  getSubstitution p [] (skipn (length p) s) template ++ skipn (length p) s.
Proof.
  intros H. unfold replace. destruct s; simpl; rewrite H; reflexivity.
Qed.

Lemma toggle_step_line taskId acc line :
  toggle_step taskId acc line = acc ++ toggle_line taskId line ++ [10].
Proof.
  unfold toggle_step, toggle_line. fold (id_tag taskId).
  destruct (includes line (id_tag taskId)); [|reflexivity].
  destruct (startsWith line (lit "- [ ]")) eqn:E1.
  - rewrite (replace_at_head _ _ _ E1). reflexivity.
  - destruct (startsWith line (lit "- [x]")) eqn:E2; [|reflexivity].
    rewrite (replace_at_head _ _ _ E2). reflexivity.
Qed.

Lemma dependency_step_line fromTaskId toTaskId acc line :
  dependency_step fromTaskId toTaskId acc line =
  acc ++ dependency_line fromTaskId toTaskId line ++ [10].
Proof.
  unfold dependency_step, dependency_line.
  fold (id_tag toTaskId). fold (dependsOn_tag fromTaskId).
  destruct (includes line (id_tag toTaskId)); [|reflexivity].
  destruct (includes line (dependsOn_tag fromTaskId)); reflexivity.
Qed.

Lemma fold_rebuild (f : str -> str) (step : str -> str -> str) lines :
  (forall acc l, step acc l = acc ++ f l ++ [10]) ->
  forall acc, fold_left step lines acc = acc ++ rebuild (map f lines).
Proof.
  intros Hstep. unfold rebuild.
  induction lines as [|l lines IH]; intros acc; simpl.
  - rewrite app_nil_r. reflexivity.
  - rewrite IH, Hstep, <- !app_assoc. reflexivity.
Qed.

(** *** Running the file loop *)
Lemma set_nth_middle {A} (done : list A) x y todo :
  set_nth (length done) x (done ++ y :: todo) = done ++ x :: todo.
Proof. induction done as [|d done IH]; simpl; [reflexivity|]. f_equal. exact IH. Qed.

Lemma nth_middle_str (done : list str) y todo :
  nth (length done) (done ++ y :: todo) [] = y.
Proof. induction done as [|d done IH]; simpl; [reflexivity|exact IH]. Qed.

(** A loop body that reads its file, and writes back [f] of what it read,
    rewrites every file, one write each, in order. *)
Lemma for_each_rewrites (f : str -> str) (body : nat -> M unit) :
  (forall file v,
      body file v =
      (tt, {| files := set_nth file (f (nth file (files v) [])) (files v);
              modified := modified v ++ [(file, f (nth file (files v) []))] |})) ->
  forall todo done log,
    for_each (seq (length done) (length todo)) body
             {| files := done ++ todo; modified := log |} =
    (tt, {| files := done ++ map f todo;
            modified := log ++ combine (seq (length done) (length todo))
                                       (map f todo) |}).
Proof.
  intros Hbody. induction todo as [|y todo IH]; intros done log.
  - simpl. rewrite !app_nil_r. reflexivity.
  - cbn [length seq for_each map combine]. unfold bind at 1.
    rewrite Hbody. cbn [files modified].
    rewrite nth_middle_str, set_nth_middle.
    replace (done ++ f y :: todo) with ((done ++ [f y]) ++ todo)
      by (rewrite <- app_assoc; reflexivity).
    replace (S (length done)) with (length (done ++ [f y]))
      by (rewrite length_app; simpl; lia).
    rewrite IH. rewrite <- !app_assoc. reflexivity.
Qed.

Lemma toggleTaskCompletion_run taskId v :
  toggleTaskCompletion taskId v =
  (tt, {| files := map (toggle_content taskId) (files v);
          modified := modified v
                        ++ combine (seq 0 (length (files v)))
                                   (map (toggle_content taskId) (files v)) |}).
Proof.
  unfold toggleTaskCompletion, bind at 1, getMarkdownFiles.
  destruct v as [fs log]. cbn [files modified].
  apply (for_each_rewrites (toggle_content taskId) _) with (done := []).
  intros file v. unfold bind, read, modify, toggle_content.
  rewrite (fold_rebuild (toggle_line taskId)); [reflexivity|].
  apply toggle_step_line.
Qed.

Lemma updateTaskDependency_run fromTaskId toTaskId v :
  updateTaskDependency fromTaskId toTaskId v =
  (tt, {| files := map (dependency_content fromTaskId toTaskId) (files v);
          modified := modified v
                        ++ combine (seq 0 (length (files v)))
                             (map (dependency_content fromTaskId toTaskId)
                                  (files v)) |}).
Proof.
  unfold updateTaskDependency, bind at 1, getMarkdownFiles.
  destruct v as [fs log]. cbn [files modified].
  apply (for_each_rewrites (dependency_content fromTaskId toTaskId) _)
    with (done := []).
  intros file v. unfold bind, read, modify, dependency_content.
  rewrite (fold_rebuild (dependency_line fromTaskId toTaskId)); [reflexivity|].
  apply dependency_step_line.
Qed.

Lemma after_toggle taskId contents :
  after (toggleTaskCompletion taskId) contents =
  map (toggle_content taskId) contents.
Proof. unfold after. rewrite toggleTaskCompletion_run. reflexivity. Qed.

Lemma after_dependency fromTaskId toTaskId contents :
  after (updateTaskDependency fromTaskId toTaskId) contents =
  map (dependency_content fromTaskId toTaskId) contents.
Proof. unfold after. rewrite updateTaskDependency_run. reflexivity. Qed.

(* ================================================================== *)
(** ** Lines and trimming *)
(* ================================================================== *)

Lemma split_nl_nonempty s : split_nl s <> [].
Proof.
  destruct s as [|c s]; simpl; [discriminate|].
  destruct (c =? 10); [discriminate|]. destruct (split_nl s); discriminate.
Qed.

Lemma split_nl_no_nl s : Forall no_nl (split_nl s).
Proof.
  induction s as [|c s IH]; simpl.
  - constructor; [reflexivity|constructor].
  - destruct (c =? 10) eqn:E.
    + constructor; [reflexivity|exact IH].
    + destruct (split_nl s) as [|l ls].
      { repeat constructor. unfold no_nl. simpl. rewrite E. reflexivity. }
      inversion IH; subst. constructor; [|assumption].
      unfold no_nl in *. simpl. rewrite E. assumption.
Qed.

Lemma join_split s : join_nl (split_nl s) = s.
Proof.
  induction s as [|c s IH]; simpl; [reflexivity|].
  destruct (N.eqb_spec c 10) as [->|Hc].
  - destruct (split_nl s) as [|l ls] eqn:E; [elim (split_nl_nonempty s E)|].
    change (join_nl ([] :: l :: ls)) with (10 :: join_nl (l :: ls)).
    rewrite IH. reflexivity.
  - destruct (split_nl s) as [|l ls] eqn:E; [elim (split_nl_nonempty s E)|].
    rewrite <- IH. destruct ls; reflexivity.
Qed.

Lemma split_line l : no_nl l -> split_nl l = [l].
Proof.
  unfold no_nl. induction l as [|c l IH]; simpl; intros H; [reflexivity|].
  apply andb_true_iff in H. destruct H as [Hc Hl].
  apply negb_true_iff in Hc. rewrite Hc, (IH Hl). reflexivity.
Qed.

Lemma split_line_app l s :
  no_nl l -> split_nl (l ++ 10 :: s) = l :: split_nl s.
Proof.
  unfold no_nl. induction l as [|c l IH]; simpl; intros H; [reflexivity|].
  apply andb_true_iff in H. destruct H as [Hc Hl].
  apply negb_true_iff in Hc. rewrite Hc, (IH Hl). reflexivity.
Qed.

Lemma split_join ls : ls <> [] -> Forall no_nl ls -> split_nl (join_nl ls) = ls.
Proof.
  induction ls as [|l ls IH]; intros Hne H; [congruence|].
  inversion H; subst. destruct ls as [|l' ls].
  - simpl. apply split_line. assumption.
  - change (join_nl (l :: l' :: ls)) with (l ++ 10 :: join_nl (l' :: ls)).
    rewrite split_line_app by assumption. f_equal. apply IH; [discriminate|assumption].
Qed.

Lemma rebuild_join ls : ls <> [] -> rebuild ls = join_nl ls ++ [10].
Proof.
  unfold rebuild. induction ls as [|l ls IH]; intros Hne; [congruence|].
  destruct ls as [|l' ls].
  - simpl. rewrite app_nil_r. reflexivity.
  - change (join_nl (l :: l' :: ls)) with (l ++ 10 :: join_nl (l' :: ls)).
    cbn [map concat]. cbn [map concat] in IH. rewrite IH by discriminate.
    rewrite <- !app_assoc. reflexivity.
Qed.

(** *** [trim] *)
Lemma trimStart_app_ws s c :
  is_ws c = true ->
  trimStart (s ++ [c]) = match trimStart s with [] => [] | t => t ++ [c] end.
Proof.
  intros Hc. induction s as [|a s IH]; simpl.
  - rewrite Hc. reflexivity.
  - destruct (is_ws a); [exact IH|reflexivity].
Qed.

Lemma trimEnd_app_ws s c : is_ws c = true -> trimEnd (s ++ [c]) = trimEnd s.
Proof.
  intros Hc. unfold trimEnd. rewrite rev_app_distr. simpl. rewrite Hc. reflexivity.
Qed.

Lemma trim_app_ws s c : is_ws c = true -> trim (s ++ [c]) = trim s.
Proof.
  intros Hc. unfold trim. rewrite (trimStart_app_ws s c Hc).
  destruct (trimStart s) as [|a t] eqn:E; [reflexivity|].
  apply trimEnd_app_ws. exact Hc.
Qed.

Lemma trimStart_head s :
  match trimStart s with [] => True | a :: _ => is_ws a = false end.
Proof.
  induction s as [|c s IH]; simpl; [exact I|].
  destruct (is_ws c) eqn:E; [exact IH|exact E].
Qed.

Lemma trimStart_fix s :
  match s with [] => True | a :: _ => is_ws a = false end -> trimStart s = s.
Proof. destruct s as [|a s]; simpl; [reflexivity|]. intros ->. reflexivity. Qed.

Lemma trimStart_suffix s : exists w, s = w ++ trimStart s.
Proof.
  induction s as [|c s [w IH]]; simpl; [exists []; reflexivity|].
  destruct (is_ws c); [|exists []; reflexivity].
  exists (c :: w). simpl. f_equal. exact IH.
Qed.

Lemma trimEnd_prefix s : exists w, s = trimEnd s ++ w.
Proof.
  unfold trimEnd. destruct (trimStart_suffix (rev s)) as [w Hw].
  exists (rev w). rewrite <- rev_app_distr, <- Hw, rev_involutive. reflexivity.
Qed.

Lemma trim_ends_ok s : ends_ok (trim s) = true.
Proof.
  unfold ends_ok, trim. apply andb_true_iff. split.
  - destruct (trimEnd_prefix (trimStart s)) as [w Hw].
    destruct (trimEnd (trimStart s)) as [|a t]; [reflexivity|].
    pose proof (trimStart_head s) as H. rewrite Hw in H. simpl in H.
    rewrite H. reflexivity.
  - unfold trimEnd. rewrite rev_involutive.
    pose proof (trimStart_head (rev (trimStart s))) as H.
    destruct (trimStart (rev (trimStart s))); [reflexivity|].
    rewrite H. reflexivity.
Qed.

Lemma trimmed_iff s : trimmed s <-> ends_ok s = true.
Proof.
  unfold trimmed. split.
  - intros H. rewrite <- H. apply trim_ends_ok.
  - unfold ends_ok, trim. intros H. apply andb_true_iff in H. destruct H as [H1 H2].
    rewrite trimStart_fix.
    + unfold trimEnd. rewrite trimStart_fix; [apply rev_involutive|].
      destruct (rev s); [exact I|]. apply negb_true_iff. exact H2.
    + destruct s; [exact I|]. apply negb_true_iff. exact H1.
Qed.

Lemma trim_trimmed s : trimmed (trim s).
Proof. apply trimmed_iff, trim_ends_ok. Qed.

Lemma trim_infix s : exists u v, s = u ++ trim s ++ v.
Proof.
  unfold trim. destruct (trimStart_suffix s) as [u Hu].
  destruct (trimEnd_prefix (trimStart s)) as [v Hv].
  exists u, v. rewrite <- Hv. exact Hu.
Qed.

Lemma ends_ok_alt s :
  ends_ok s =
  match hd_error s with None => true | Some a => negb (is_ws a) end
  && match hd_error (rev s) with None => true | Some b => negb (is_ws b) end.
Proof. unfold ends_ok. destruct s; destruct (rev _); reflexivity. Qed.

Lemma ends_ok_hd s s' :
  hd_error s = hd_error s' -> hd_error (rev s) = hd_error (rev s') ->
  ends_ok s = ends_ok s'.
Proof. intros H1 H2. rewrite !ends_ok_alt, H1, H2. reflexivity. Qed.

Lemma hd_error_app (a b : str) :
  hd_error (a ++ b) = match hd_error a with Some c => Some c | None => hd_error b end.
Proof. destruct a; reflexivity. Qed.

Lemma hd_join f ls :
  keeps_ends f -> hd_error (join_nl (map f ls)) = hd_error (join_nl ls).
Proof.
  intros Hf. destruct ls as [|l ls]; [reflexivity|].
  destruct ls as [|l' ls].
  - simpl. apply Hf.
  - change (hd_error (f l ++ 10 :: join_nl (map f (l' :: ls))) =
            hd_error (l ++ 10 :: join_nl (l' :: ls))).
    rewrite !hd_error_app. rewrite (proj1 (Hf l)). reflexivity.
Qed.

Lemma last_join f ls :
  keeps_ends f ->
  hd_error (rev (join_nl (map f ls))) = hd_error (rev (join_nl ls)).
Proof.
  intros Hf. induction ls as [|l ls IH]; [reflexivity|].
  destruct ls as [|l' ls].
  - simpl. apply Hf.
  - change (hd_error (rev (f l ++ 10 :: join_nl (map f (l' :: ls)))) =
            hd_error (rev (l ++ 10 :: join_nl (l' :: ls)))).
    rewrite !rev_app_distr. cbn [rev]. rewrite <- !app_assoc, !hd_error_app.
    rewrite IH. reflexivity.
Qed.

Lemma is_ws_nl : is_ws 10 = true.
Proof. reflexivity. Qed.

(** On a trimmed document a rewrite that keeps line ends yields the
    rewritten lines joined by newlines, and that text splits back into the
    rewritten lines. *)
Lemma content_map f d :
  keeps_ends f -> keeps_lines f -> trimmed d ->
  trim (rebuild (map f (split_nl d))) = join_nl (map f (split_nl d))
  /\ split_nl (join_nl (map f (split_nl d))) = map f (split_nl d).
Proof.
  intros He Hl Hd.
  assert (Hne : map f (split_nl d) <> []).
  { intros H. apply map_eq_nil in H. exact (split_nl_nonempty d H). }
  split.
  - rewrite (rebuild_join _ Hne), (trim_app_ws _ 10 is_ws_nl).
    apply trimmed_iff.
    rewrite (ends_ok_hd _ (join_nl (split_nl d))).
    + rewrite join_split. apply trimmed_iff. exact Hd.
    + apply hd_join. exact He.
    + apply last_join. exact He.
  - apply split_join; [exact Hne|].
    apply Forall_forall. intros l Hin. apply in_map_iff in Hin.
    destruct Hin as [l0 [<- Hin]]. apply Hl.
    pose proof (split_nl_no_nl d) as H. rewrite Forall_forall in H. apply H, Hin.
Qed.

(** *** [toggle_line] *)
Lemma includes_after_marker c rest b p :
  c = 32 \/ c = 120 -> (32 =? b) = false -> (120 =? b) = false ->
  includes (45 :: 32 :: 91 :: c :: 93 :: rest) (91 :: b :: p) =
  includes rest (91 :: b :: p).
Proof.
  intros Hc H1 H2.
  rewrite (includes_skip 45), (includes_skip 32) by lia.
  rewrite includes_cons_head. cbn [startsWith].
  destruct Hc as [-> | ->]; rewrite ?H1, ?H2; cbn [andb orb].
  - rewrite (includes_skip 32), (includes_skip 93) by lia. reflexivity.
  - rewrite (includes_skip 120), (includes_skip 93) by lia. reflexivity.
Qed.

Section Toggle.

Variable t : str.

Lemma includes_id_tag_marker_open rest :
  includes (lit "- [ ]" ++ rest) (id_tag t) = includes rest (id_tag t).
Proof.
  rewrite id_tag_eq. norm_lit. cbn [app].
  apply includes_after_marker; [now left|reflexivity|reflexivity].
Qed.

Lemma includes_id_tag_marker_done rest :
  includes (lit "- [x]" ++ rest) (id_tag t) = includes rest (id_tag t).
Proof.
  rewrite id_tag_eq. norm_lit. cbn [app].
  apply includes_after_marker; [now right|reflexivity|reflexivity].
Qed.

(** The shapes of a toggled line. *)
Lemma toggle_line_cases l :
  toggle_line t l = l
  \/ exists rest,
       rest <> [] /\ includes rest (id_tag t) = true
       /\ ((l = lit "- [ ]" ++ rest /\ toggle_line t l = lit "- [x]" ++ rest)
           \/ (l = lit "- [x]" ++ rest /\ toggle_line t l = lit "- [ ]" ++ rest)).
Proof.
  unfold toggle_line.
  destruct (includes l (id_tag t)) eqn:Hi; [|now left].
  destruct (startsWith l (lit "- [ ]")) eqn:E1.
  - right. apply startsWith_inv in E1.
    change (skipn (length _) l) with (skipn 5 l) in E1.
    exists (skipn 5 l). rewrite E1, includes_id_tag_marker_open in Hi.
    split; [|split; [exact Hi|left; split; [exact E1|reflexivity]]].
    intros H. rewrite H in Hi. discriminate.
  - destruct (startsWith l (lit "- [x]")) eqn:E2; [|now left].
    right. apply startsWith_inv in E2.
    change (skipn (length _) l) with (skipn 5 l) in E2.
    exists (skipn 5 l). rewrite E2, includes_id_tag_marker_done in Hi.
    split; [|split; [exact Hi|right; split; [exact E2|reflexivity]]].
    intros H. rewrite H in Hi. discriminate.
Qed.

Lemma toggle_line_marker_open rest :
  includes rest (id_tag t) = true ->
  toggle_line t (lit "- [ ]" ++ rest) = lit "- [x]" ++ rest.
Proof.
  intros H. unfold toggle_line.
  rewrite includes_id_tag_marker_open, H, startsWith_app. reflexivity.
Qed.

Lemma toggle_line_marker_done rest :
  includes rest (id_tag t) = true ->
  toggle_line t (lit "- [x]" ++ rest) = lit "- [ ]" ++ rest.
Proof.
  intros H. unfold toggle_line.
  rewrite includes_id_tag_marker_done, H, startsWith_app. reflexivity.
Qed.

Lemma toggle_line_involutive l : toggle_line t (toggle_line t l) = l.
Proof.
  destruct (toggle_line_cases l) as [H|[rest [_ [Hi [[Hl H]|[Hl H]]]]]].
  - rewrite H. exact H.
  - rewrite H, (toggle_line_marker_done rest Hi). symmetry. exact Hl.
  - rewrite H, (toggle_line_marker_open rest Hi). symmetry. exact Hl.
Qed.

Lemma hd_error_rev_app (a r : str) :
  r <> [] -> hd_error (rev (a ++ r)) = hd_error (rev r).
Proof.
  intros Hr. rewrite rev_app_distr, hd_error_app.
  destruct (rev r) eqn:E; [|reflexivity].
  apply (f_equal (@rev N)) in E. rewrite rev_involutive in E. contradiction.
Qed.

Lemma toggle_line_keeps_ends : keeps_ends (toggle_line t).
Proof.
  intros l.
  destruct (toggle_line_cases l) as [H|[rest [Hne [_ [[Hl H]|[Hl H]]]]]];
    rewrite H; [split; reflexivity| |]; rewrite Hl;
    rewrite !hd_error_rev_app by exact Hne; split; reflexivity.
Qed.

Lemma no_nl_app a b : no_nl (a ++ b) <-> no_nl a /\ no_nl b.
Proof. unfold no_nl. rewrite forallb_app. apply andb_true_iff. Qed.

Lemma toggle_line_keeps_lines : keeps_lines (toggle_line t).
Proof.
  intros l Hl.
  destruct (toggle_line_cases l) as [H|[rest [_ [_ [[E H]|[E H]]]]]];
    rewrite H; [exact Hl| |]; rewrite E in Hl; apply no_nl_app in Hl;
    apply no_nl_app; (split; [reflexivity|apply Hl]).
Qed.

(** On a trimmed document, [toggleTaskCompletion] maps the lines. *)
Lemma toggle_content_lines d :
  trimmed d ->
  toggle_content t d = join_nl (map (toggle_line t) (split_nl d))
  /\ split_nl (toggle_content t d) = map (toggle_line t) (split_nl d)
  /\ trimmed (toggle_content t d).
Proof.
  intros Hd. unfold toggle_content.
  destruct (content_map (toggle_line t) d (toggle_line_keeps_ends)
                        (toggle_line_keeps_lines) Hd) as [H1 H2].
  split; [exact H1|]. split; [rewrite H1; exact H2|apply trim_trimmed].
Qed.

Lemma toggle_content_twice d :
  trimmed d -> toggle_content t (toggle_content t d) = d.
Proof.
  intros Hd. destruct (toggle_content_lines d Hd) as [H1 [H2 H3]].
  destruct (toggle_content_lines _ H3) as [H4 _].
  rewrite H4, H2, map_map.
  rewrite (map_ext _ (fun l => l)) by (intros l; apply toggle_line_involutive).
  rewrite map_id. apply join_split.
Qed.

End Toggle.

(* ================================================================== *)
(** ** What a match says about the text *)
(* ================================================================== *)

Lemma exec_at_tag_inv key v m :
  exec_at {| re_open := map is_chr key; re_cls := is_word;
             re_close := [is_chr 93] |} v = Some m ->
  v = key ++ group1 m ++ 93 :: rest m
  /\ forallb is_word (group1 m) = true
  /\ group1 m <> []
  /\ whole m = key ++ group1 m ++ [93].
Proof.
  rewrite exec_at_tag. destruct (startsWith v key) eqn:Hk; [|discriminate].
  apply startsWith_inv in Hk.
  pose proof (span_app is_word (skipn (length key) v)) as Happ.
  pose proof (span_run is_word (skipn (length key) v)) as Hrun.
  destruct (span is_word (skipn (length key) v)) as [[|c run] r];
    [discriminate|].
  destruct r as [|d r]; [discriminate|].
  destruct (N.eq_dec d 93) as [->|Hd].
  - intros [= <-]. cbn [group1 rest whole fst snd] in *.
    rewrite Hk at 1. rewrite <- Happ.
    repeat split; try assumption; discriminate.
  - destruct d as [|p]; [discriminate|].
    do 7 (destruct p as [p|p|]; try discriminate). congruence.
Qed.

Lemma exec_at_task_inv v m :
  exec_at re_task v = Some m ->
  marker_space v = true
  /\ skipn 6 v = group1 m ++ rest m
  /\ group1 m <> [].
Proof.
  rewrite exec_at_task. destruct (marker_space v); [|discriminate].
  pose proof (span_app (fun c => negb (is_line_terminator c)) (skipn 6 v)) as Happ.
  destruct (span _ (skipn 6 v)) as [[|c run] r]; [discriminate|].
  intros [= <-]. cbn [group1 rest fst snd] in *.
  repeat split; [symmetry; exact Happ|discriminate].
Qed.

(** The capture of the task expression is a piece of the line. *)
Lemma task_capture_in_line line m :
  exec re_task line = Some m -> includes line (group1 m) = true.
Proof.
  intros H. destruct (exec_found _ _ _ H) as [u [v [Hl Hv]]].
  destruct (exec_at_task_inv v m Hv) as [_ [Hk _]].
  apply includes_iff. exists (u ++ firstn 6 v), (rest m).
  rewrite Hl, <- app_assoc, <- Hk, firstn_skipn. reflexivity.
Qed.

Lemma trim_in_text s : includes s (trim s) = true.
Proof. apply includes_iff. apply trim_infix. Qed.

(** An identity found by [/\[id:(\w+)\]/] sits in the text inside its tag. *)
Lemma id_match_in_text s m :
  exec re_id s = Some m ->
  includes s (id_tag (group1 m)) = true /\ word (group1 m).
Proof.
  intros H. destruct (exec_found _ _ _ H) as [u [v [Hs Hv]]].
  destruct (exec_at_tag_inv (lit "[id:") v m Hv) as [Hv' [Hw _]].
  split; [|exact Hw].
  apply includes_iff. exists u, (rest m). rewrite Hs, Hv'.
  unfold id_tag. rewrite <- !app_assoc. reflexivity.
Qed.

Lemma explicit_id_in_line line w :
  explicit_id line = Some w -> includes line (id_tag w) = true.
Proof.
  unfold explicit_id.
  destruct (exec re_task line) as [m|] eqn:Em; [|discriminate].
  destruct (exec re_id (trim (group1 m))) as [m'|] eqn:Ei; [|discriminate].
  intros [= <-].
  apply (includes_trans _ (group1 m)); [exact (task_capture_in_line _ _ Em)|].
  apply (includes_trans _ (trim (group1 m))); [apply trim_in_text|].
  apply (id_match_in_text _ _ Ei).
Qed.

(** The identity of a candidate is its tag's, or the synthesized one. *)
Lemma candidate_id uid line t uid' :
  candidate uid line = Some (t, uid') ->
  explicit_id line = Some (id t) \/ id t = synth uid.
Proof.
  unfold candidate, explicit_id, task_of.
  destruct (exec re_task line) as [m|]; [|discriminate].
  destruct (exec re_id (trim (group1 m))) as [m'|]; intros [= <- _]; simpl;
    [left|right]; reflexivity.
Qed.


(** *** The task expression does not see which marker opens the line *)
Lemma exec_task_after_marker c rest :
  c = 32 \/ c = 120 ->
  exec re_task (45 :: 32 :: 91 :: c :: 93 :: rest) =
  match exec_at re_task (45 :: 32 :: 91 :: c :: 93 :: rest) with
  | Some m => Some m
  | None => exec re_task rest
  end.
Proof.
  intros Hc. rewrite exec_cons.
  destruct (exec_at re_task (45 :: 32 :: 91 :: c :: 93 :: rest)); [reflexivity|].
  rewrite !exec_cons, !exec_at_task.
  destruct Hc as [-> | ->]; reflexivity.
Qed.

Lemma exec_task_marker_swap rest :
  option_map group1 (exec re_task (lit "- [x]" ++ rest)) =
  option_map group1 (exec re_task (lit "- [ ]" ++ rest)).
Proof.
  norm_lit. cbn [app].
  rewrite !exec_task_after_marker by (auto).
  rewrite !exec_at_task.
  replace (marker_space (45 :: 32 :: 91 :: 120 :: 93 :: rest))
    with (marker_space (45 :: 32 :: 91 :: 32 :: 93 :: rest))
    by (destruct rest as [|a r]; [reflexivity|];
        unfold marker_space; norm_lit; cbn;
        destruct (a =? 32); reflexivity).
  destruct (marker_space _); [|reflexivity].
  cbn [skipn]. destruct (span _ _) as [[|a run] r]; reflexivity.
Qed.



(* ================================================================== *)
(** ** Extraction after a toggle *)
(* ================================================================== *)








Lemma all_lines_toggle t vault :
  Forall trimmed vault ->
  all_lines (map (toggle_content t) vault) =
  map (toggle_line t) (all_lines vault).
Proof.
  unfold all_lines. induction 1 as [|d vault Hd _ IH]; [reflexivity|].
  cbn [map flat_map]. rewrite map_app, IH.
  destruct (toggle_content_lines t d Hd) as [_ [H _]]. rewrite H. reflexivity.
Qed.

Lemma map_toggle_twice t vault :
  Forall trimmed vault ->
  map (toggle_content t) (map (toggle_content t) vault) = vault.
Proof.
  induction 1 as [|d vault Hd _ IH]; [reflexivity|].
  cbn [map]. rewrite IH, (toggle_content_twice t d Hd). reflexivity.
Qed.

(* ================================================================== *)
(** ** Adding a dependency *)
(* ================================================================== *)

Lemma word_plain A :
  word A -> forallb (fun c => negb (c =? 36)) A = true.
Proof.
  unfold word. intros H. apply forallb_forall. intros c Hc.
  rewrite forallb_forall in H. specialize (H c Hc).
  apply is_word_not in H. apply negb_true_iff, N.eqb_neq. tauto.
Qed.

Lemma word_no_nl A : word A -> no_nl A.
Proof.
  unfold word, no_nl. intros H. apply forallb_forall. intros c Hc.
  rewrite forallb_forall in H. specialize (H c Hc).
  apply is_word_not in H. apply negb_true_iff, N.eqb_neq. tauto.
Qed.

Lemma dependency_template_plain A matched before after :
  word A ->
  getSubstitution matched before after (lit " [dependsOn:" ++ A ++ lit "]]") =
  lit " [dependsOn:" ++ A ++ lit "]]".
Proof.
  intros H. apply getSubstitution_plain. rewrite !forallb_app.
  rewrite (word_plain A H). reflexivity.
Qed.

Lemma replace_final_bracket_last init template :
  replace_final_bracket (init ++ [93]) template =
  init ++ getSubstitution [93] init [] template.
Proof.
  unfold replace_final_bracket. rewrite rev_app_distr. cbn [rev app].
  rewrite N.eqb_refl, rev_involutive. reflexivity.
Qed.

Lemma spliced_has_dependency init A :
  includes (init ++ lit " [dependsOn:" ++ A ++ lit "]]") (dependsOn_tag A) = true.
Proof.
  apply includes_iff. exists (init ++ [32]), [93].
  unfold dependsOn_tag. rewrite <- !app_assoc. reflexivity.
Qed.

Lemma tagged_line_long init B :
  includes (init ++ [93]) (id_tag B) = true -> init <> [].
Proof. intros H ->. rewrite id_tag_eq in H. discriminate H. Qed.

Section Dependency.

Variables A B : str.
Hypothesis HA : word A.

(** The shapes of a line after [updateTaskDependency]. *)
Lemma dependency_line_cases l :
  dependency_line A B l = l
  \/ exists init,
       l = init ++ [93]
       /\ includes l (id_tag B) = true
       /\ includes l (dependsOn_tag A) = false
       /\ dependency_line A B l = init ++ lit " [dependsOn:" ++ A ++ lit "]]".
Proof.
  unfold dependency_line.
  destruct (includes l (id_tag B)) eqn:Hi; [|now left].
  destruct (includes l (dependsOn_tag A)) eqn:Hd; [now left|].
  destruct (rev l) as [|c r] eqn:E.
  - left. unfold replace_final_bracket. rewrite E. reflexivity.
  - destruct (N.eqb_spec c 93) as [->|Hc].
    + right. exists (rev r).
      assert (Hl : l = rev r ++ [93])
        by (rewrite <- (rev_involutive l), E; reflexivity).
      split; [exact Hl|]. split; [reflexivity|]. split; [reflexivity|].
      rewrite Hl, replace_final_bracket_last.
      rewrite (dependency_template_plain A _ _ _ HA). reflexivity.
    + left. unfold replace_final_bracket. rewrite E.
      apply N.eqb_neq in Hc. rewrite Hc. reflexivity.
Qed.

Lemma dependency_line_idempotent l :
  dependency_line A B (dependency_line A B l) = dependency_line A B l.
Proof.
  destruct (dependency_line_cases l) as [H|[init [_ [_ [_ H]]]]].
  - rewrite H. exact H.
  - rewrite H. unfold dependency_line at 1.
    rewrite spliced_has_dependency.
    destruct (includes _ (id_tag B)); reflexivity.
Qed.

Lemma dependency_line_keeps_ends :
  keeps_ends (dependency_line A B).
Proof.
  intros l.
  destruct (dependency_line_cases l) as [H|[init [Hl [Hi [_ H]]]]];
    rewrite H; [split; reflexivity|].
  rewrite Hl in Hi. apply tagged_line_long in Hi. rewrite Hl. split.
  - destruct init; [contradiction|reflexivity].
  - change (lit "]]") with ([93] ++ [93]).
    rewrite !app_assoc, !rev_app_distr. reflexivity.
Qed.

Lemma dependency_line_keeps_lines :
  keeps_lines (dependency_line A B).
Proof.
  intros l Hno.
  destruct (dependency_line_cases l) as [H|[init [Hl [_ [_ H]]]]];
    rewrite H; [exact Hno|].
  rewrite Hl in Hno. apply no_nl_app in Hno.
  apply no_nl_app. split; [apply Hno|].
  apply no_nl_app. split; [reflexivity|].
  apply no_nl_app. split; [apply word_no_nl; exact HA|reflexivity].
Qed.

Lemma dependency_content_lines d :
  trimmed d ->
  dependency_content A B d = join_nl (map (dependency_line A B) (split_nl d))
  /\ split_nl (dependency_content A B d) =
     map (dependency_line A B) (split_nl d)
  /\ trimmed (dependency_content A B d).
Proof.
  intros Hd. unfold dependency_content.
  destruct (content_map (dependency_line A B) d
              dependency_line_keeps_ends
              dependency_line_keeps_lines Hd) as [H1 H2].
  split; [exact H1|]. split; [rewrite H1; exact H2|apply trim_trimmed].
Qed.

Lemma dependency_content_twice d :
  trimmed d ->
  dependency_content A B (dependency_content A B d) = dependency_content A B d.
Proof.
  intros Hd. destruct (dependency_content_lines d Hd) as [H1 [H2 H3]].
  destruct (dependency_content_lines _ H3) as [H4 _].
  rewrite H4, H2, map_map.
  rewrite (map_ext _ (dependency_line A B))
    by (intros l; apply dependency_line_idempotent).
  symmetry. exact H1.
Qed.

End Dependency.

(* ================================================================== *)
(** ** The splice inside the last tag *)
(* ================================================================== *)

Lemma word_no_open A : word A -> forallb (fun c => negb (c =? 91)) A = true.
Proof.
  unfold word. intros H. apply forallb_forall. intros c Hc.
  rewrite forallb_forall in H. specialize (H c Hc).
  apply is_word_not in H. apply negb_true_iff, N.eqb_neq. tauto.
Qed.

Lemma startsWith_app_l s p q :
  startsWith s (p ++ q) = true -> startsWith s p = true.
Proof.
  rewrite !startsWith_iff. intros [r ->]. exists (q ++ r).
  rewrite app_assoc. reflexivity.
Qed.

(** A word followed by a blank does not begin with a word followed by a
    closing bracket. *)
Lemma word_blank_not_word_close B w R :
  word B -> word w -> startsWith (B ++ 32 :: R) (w ++ [93]) = false.
Proof.
  unfold word. revert B. induction w as [|a w IH]; intros B HB Hw.
  - destruct B as [|b B]; [reflexivity|]. cbn [app startsWith forallb] in *.
    apply andb_true_iff in HB. destruct HB as [Hb _].
    apply is_word_not in Hb.
    replace (b =? 93) with false by (symmetry; apply N.eqb_neq; tauto).
    reflexivity.
  - cbn [forallb] in Hw. apply andb_true_iff in Hw. destruct Hw as [Ha Hw].
    destruct B as [|b B]; cbn [app startsWith].
    + apply is_word_not in Ha.
      replace (32 =? a) with false
        by (symmetry; apply N.eqb_neq; intros E; symmetry in E; tauto).
      reflexivity.
    + cbn [forallb] in HB. apply andb_true_iff in HB. destruct HB as [_ HB].
      rewrite (IH B HB Hw). apply andb_false_r.
Qed.

(** An opening [[id:] that begins in front of a bracket ends in front of
    it. *)
Lemma id_open_not_across p Z :
  p <> [] ->
  startsWith (p ++ 91 :: Z) (lit "[id:") = true ->
  startsWith p (lit "[id:") = true.
Proof.
  norm_lit. intros Hp.
  destruct p as [|a [|b [|c [|d p]]]]; [contradiction| | | |]; cbn;
    split_tests; try discriminate; try reflexivity; intros; assumption.
Qed.

Lemma includes_cons_false c s p :
  includes (c :: s) p = false ->
  startsWith (c :: s) p = false /\ includes s p = false.
Proof. rewrite includes_cons_head. apply orb_false_iff. Qed.

(** The spliced tag [[id:<B> [dependsOn:<A>]]] holds no identity tag. *)
Lemma spliced_tag_no_id A B w :
  word A -> word B -> word w ->
  includes (lit "[id:" ++ B ++ lit " [dependsOn:" ++ A ++ lit "]]") (id_tag w)
  = false.
Proof.
  intros HA HB Hw. rewrite id_tag_eq. norm_lit. cbn [app].
  rewrite includes_cons_head. cbn [startsWith].
  rewrite !N.eqb_refl. cbn [andb].
  rewrite (word_blank_not_word_close B w _ HB Hw). cbn [orb].
  rewrite !includes_skip by lia.
  rewrite (includes_skip_all B _ 91 _ (word_no_open B HB)).
  rewrite includes_skip by lia.
  rewrite includes_cons_head. cbn -[includes].
  rewrite !includes_skip by lia.
  rewrite (includes_skip_all A _ 91 _ (word_no_open A HA)).
  reflexivity.
Qed.

Lemma spliced_line_no_id A B w pre :
  word A -> word B -> word w ->
  includes pre (lit "[id:") = false ->
  includes (spliced_line pre A B) (id_tag w) = false.
Proof.
  unfold spliced_line.
  intros HA HB Hw. induction pre as [|c pre IH]; intros Hpre.
  - apply spliced_tag_no_id; assumption.
  - apply includes_cons_false in Hpre. destruct Hpre as [Hhead Hpre].
    cbn [app]. rewrite includes_cons_head, (IH Hpre), orb_false_r.
    destruct (startsWith _ (id_tag w)) eqn:E; [|reflexivity].
    unfold id_tag in E. apply startsWith_app_l in E.
    change (c :: pre ++ lit "[id:" ++ B ++ lit " [dependsOn:" ++ A ++ lit "]]")
      with ((c :: pre) ++ 91 :: lit "id:" ++ B ++ lit " [dependsOn:" ++ A ++ lit "]]")
      in E.
    apply id_open_not_across in E; [congruence|discriminate].
Qed.

Lemma no_dash_unrecognised s :
  forallb (fun c => negb (c =? 45)) s = true -> exec re_task s = None.
Proof.
  induction s as [|c s IH]; [reflexivity|]. cbn [forallb]. intros H.
  apply andb_true_iff in H. destruct H as [Hc Hs]. apply negb_true_iff in Hc.
  rewrite exec_cons, exec_at_task, (IH Hs).
  unfold marker_space. norm_lit. cbn [startsWith]. rewrite Hc. reflexivity.
Qed.

Lemma task_window p Y Y' :
  p <> [] ->
  matches_here (p ++ 91 :: 105 :: Y) = matches_here (p ++ 91 :: 105 :: Y').
Proof.
  intros Hp. unfold matches_here. rewrite !exec_at_task.
  unfold marker_space. norm_lit.
  destruct p as [|a1 [|a2 [|a3 [|a4 [|a5 [|a6 [|a7 p]]]]]]];
    [contradiction|..]; cbn [app startsWith skipn span];
    split_tests; try reflexivity.
  all: cbn [span];
    repeat match goal with
           | |- context [negb (is_line_terminator ?a)] =>
               destruct (negb (is_line_terminator a))
           | |- context [span ?f ?x] => destruct (span f x)
           end;
    reflexivity.
Qed.

Lemma recognised_same_head pre Y Y' :
  forallb (fun c => negb (c =? 45)) Y = true ->
  forallb (fun c => negb (c =? 45)) Y' = true ->
  recognised (pre ++ 91 :: 105 :: Y) = recognised (pre ++ 91 :: 105 :: Y').
Proof.
  intros HY HY'. unfold recognised. induction pre as [|c pre IH].
  - cbn [app]. rewrite !no_dash_unrecognised; [reflexivity| |];
      cbn [forallb]; [rewrite HY'|rewrite HY]; reflexivity.
  - cbn [app]. rewrite !exec_cons.
    pose proof (task_window (c :: pre) Y Y') as H. unfold matches_here in H.
    cbn [app] in H.
    destruct (exec_at re_task (c :: pre ++ 91 :: 105 :: Y));
      destruct (exec_at re_task (c :: pre ++ 91 :: 105 :: Y'));
      try reflexivity; try (specialize (H ltac:(discriminate)); discriminate H).
    exact IH.
Qed.

Lemma word_no_dash A : word A -> forallb (fun c => negb (c =? 45)) A = true.
Proof.
  unfold word. intros H. apply forallb_forall. intros c Hc.
  rewrite forallb_forall in H. specialize (H c Hc).
  apply is_word_not in H. apply negb_true_iff, N.eqb_neq. tauto.
Qed.

(** The line is a task after the splice exactly when it was one before. *)
Lemma recognised_after_splice A B pre :
  word A -> word B ->
  recognised (spliced_line pre A B) = recognised (pre ++ id_tag B).
Proof.
  intros HA HB. unfold spliced_line. rewrite id_tag_eq. norm_lit. cbn [app].
  apply recognised_same_head;
    repeat first [ rewrite forallb_app
                 | rewrite (word_no_dash A HA)
                 | rewrite (word_no_dash B HB)
                 | progress cbn [forallb] ];
    reflexivity.
Qed.

(** *** Every dependency tag of the item text is collected *)
Lemma exec_at_dependsOn_tag g v :
  word g -> g <> [] ->
  exec_at re_dependsOn (dependsOn_tag g ++ v) =
  Some {| whole := dependsOn_tag g; group1 := g; rest := v |}.
Proof.
  intros Hg Hne.
  change re_dependsOn with
    {| re_open := map is_chr (lit "[dependsOn:"); re_cls := is_word;
       re_close := [is_chr 93] |}.
  rewrite exec_at_tag. unfold dependsOn_tag. rewrite <- !app_assoc.
  rewrite startsWith_app.
  change (skipn (length (lit "[dependsOn:")) (lit "[dependsOn:" ++ g ++ lit "]" ++ v))
    with (g ++ 93 :: v).
  rewrite (span_exact is_word g (93 :: v) Hg eq_refl).
  destruct g; [contradiction|reflexivity].
Qed.

Lemma slice_dependsOn_tag g : slice (dependsOn_tag g) 11 (-1) = g.
Proof.
  unfold slice, dependsOn_tag. rewrite !length_app.
  change (length (lit "[dependsOn:")) with 11%nat.
  change (length (lit "]")) with 1%nat.
  change (11 <? 0)%Z with false. change (-1 <? 0)%Z with true. cbv iota.
  replace (Z.min 11 (Z.of_nat (11 + (length g + 1)))) with 11%Z by lia.
  replace (Z.max (Z.of_nat (11 + (length g + 1)) + -1) 0 - 11)%Z
    with (Z.of_nat (length g)) by lia.
  rewrite Nat2Z.id. change (Z.to_nat 11) with 11%nat.
  change (skipn 11 (lit "[dependsOn:" ++ g ++ lit "]")) with (g ++ lit "]").
  rewrite firstn_app, Nat.sub_diag, firstn_all. cbn. apply app_nil_r.
Qed.

Lemma match_all_from_head re s m :
  s <> [] -> exec_at re s = Some m ->
  match_all_from 0 re s =
  whole m :: match_all_from (length (whole m) - 1) re (tl s).
Proof. intros Hs H. destruct s; [contradiction|]. simpl. rewrite H. reflexivity. Qed.

Lemma firstn_exact (x r : str) : firstn (length x) (x ++ r) = x.
Proof.
  rewrite firstn_app, Nat.sub_diag, firstn_all. cbn [firstn]. apply app_nil_r.
Qed.

Lemma match_all_from_finds g u v :
  word g -> g <> [] ->
  forall k,
    forallb (fun c => negb (c =? 91)) (firstn k (u ++ dependsOn_tag g ++ v)) = true ->
    In (dependsOn_tag g)
       (match_all_from k re_dependsOn (u ++ dependsOn_tag g ++ v)).
Proof.
  intros Hg Hne. remember (dependsOn_tag g) as T eqn:HT.
  induction u as [|c u IH]; intros k Hk.
  - subst T. cbn [app] in *. destruct k as [|k].
    + assert (Hs : dependsOn_tag g ++ v <> [])
        by (rewrite dependsOn_tag_eq; discriminate).
      rewrite (match_all_from_head re_dependsOn _ _ Hs
                 (exec_at_dependsOn_tag g v Hg Hne)).
      left. reflexivity.
    + rewrite dependsOn_tag_eq in Hk. discriminate Hk.
  - cbn [app match_all_from]. destruct k as [|k].
    + destruct (exec_at re_dependsOn (c :: u ++ T ++ v)) as [m|] eqn:E.
      * right. apply IH.
        apply (exec_at_tag_inv (lit "[dependsOn:")) in E.
        destruct E as [Ev [Hw [_ Hwhole]]].
        change (lit "[dependsOn:") with (91 :: lit "dependsOn:") in Ev, Hwhole.
        rewrite <- app_comm_cons in Ev. injection Ev as _ Ev.
        rewrite Hwhole, Ev, <- app_comm_cons. cbn [length Nat.sub].
        rewrite Nat.sub_0_r.
        match goal with
        | |- context [firstn _ ?x] =>
            replace x with ((lit "dependsOn:" ++ group1 m ++ [93]) ++ rest m)
              by (rewrite <- !app_assoc; reflexivity)
        end.
        rewrite firstn_exact, !forallb_app, (word_no_open _ Hw). reflexivity.
      * apply IH. reflexivity.
    + apply IH. cbn [app firstn forallb] in Hk.
      apply andb_true_iff in Hk. apply Hk.
Qed.

(** A well-formed dependency tag in the item text is among the
    dependencies of the task read from the line. *)
Lemma declared_dependency_extracted uid line m g t uid' :
  exec re_task line = Some m ->
  word g -> g <> [] ->
  includes (trim (group1 m)) (dependsOn_tag g) = true ->
  candidate uid line = Some (t, uid') ->
  In g (dependencies t).
Proof.
  intros Em Hg Hne Hin. unfold candidate, task_of. rewrite Em.
  destruct (exec re_id (trim (group1 m))); intros [= <- _]; cbn [dependencies];
    apply includes_iff in Hin; destruct Hin as [u [v Huv]]; rewrite Huv;
    apply in_map_iff; exists (dependsOn_tag g);
    (split; [apply slice_dependsOn_tag|]);
    apply match_all_from_finds; auto.
Qed.

Lemma candidate_completed uid line t uid' :
  candidate uid line = Some (t, uid') ->
  completed t = includes line (lit "- [x]").
Proof.
  unfold candidate, task_of. destruct (exec re_task line) as [m|]; [|discriminate].
  destruct (exec re_id (trim (group1 m))); intros [= <- _]; reflexivity.
Qed.

(* ================================================================== *)
(** ** Extracted identities are words *)
(* ================================================================== *)

Lemma digits_word d : word (lit (NilEmpty.string_of_uint d)).
Proof.
  unfold word. induction d; cbn [NilEmpty.string_of_uint]; try reflexivity;
    exact IHd.
Qed.

Lemma synth_word n : word (synth n).
Proof.
  unfold synth, to_string, word. rewrite forallb_app. apply andb_true_iff.
  split; [reflexivity|].
  destruct (N.to_uint n) eqn:E; try apply digits_word. reflexivity.
Qed.

Lemma candidate_id_word uid line t uid' :
  candidate uid line = Some (t, uid') -> word (id t).
Proof.
  unfold candidate, task_of.
  destruct (exec re_task line) as [m|]; [|discriminate].
  destruct (exec re_id (trim (group1 m))) as [m'|] eqn:Ei; intros [= <- _];
    cbn [id].
  - apply (id_match_in_text _ _ Ei).
  - apply synth_word.
Qed.

Lemma scan_lines_ids_word lines :
  forall st,
    Forall (fun t => word (id t)) (tasks st) ->
    Forall (fun t => word (id t)) (tasks (fold_left scan_line lines st)).
Proof.
  induction lines as [|line lines IH]; intros st Hst; [exact Hst|].
  cbn [fold_left]. apply IH. rewrite scan_line_candidate.
  destruct (candidate (uniqueId st) line) as [[t u]|] eqn:Ec; [|exact Hst].
  destruct (has (taskIds st) (id t)); cbn [tasks]; [exact Hst|].
  apply Forall_app. split; [exact Hst|].
  constructor; [|constructor]. exact (candidate_id_word _ _ _ _ Ec).
Qed.

(** Every identity of the collection, hence every identity the graph can
    hand to the mutators, is made of word characters. *)
Lemma extracted_ids_are_words vault t :
  In t (getTasksFromNotes vault) -> word (id t).
Proof.
  unfold getTasksFromNotes. rewrite scan_files_lines. intros Hin.
  pose proof (scan_lines_ids_word (all_lines vault) build0 (Forall_nil _)) as H.
  rewrite Forall_forall in H. exact (H t Hin).
Qed.

(* ================================================================== *)
(** ** Extraction and the white space at the ends of a document *)
(* ================================================================== *)






(** *** White space in front of a line *)










(** *** White space at the end of a line *)












(** *** White space at the end of a text *)






(** *** The scan after a toggle *)






(* ================================================================== *)
(** ** Position of a task line in the scan *)
(* ================================================================== *)

Lemma scan_lines_extends lines :
  forall st, exists more,
    tasks (fold_left scan_line lines st) = tasks st ++ more.
Proof.
  induction lines as [|l lines IH]; intros st.
  - exists []. cbn. rewrite app_nil_r. reflexivity.
  - cbn [fold_left]. destruct (IH (scan_line st l)) as [more Hm].
    rewrite Hm, scan_line_candidate.
    destruct (candidate (uniqueId st) l) as [[t u]|]; [|exists more; reflexivity].
    destruct (has (taskIds st) (id t)); cbn [tasks]; [exists more; reflexivity|].
    exists (t :: more). rewrite <- app_assoc. reflexivity.
Qed.

(** A line that yields a new identity puts its task into the collection. *)
Lemma new_id_extracted before line rest t uid' :
  candidate (uniqueId (scan_before before)) line = Some (t, uid') ->
  has (taskIds (scan_before before)) (id t) = false ->
  In t (tasks (fold_left scan_line (before ++ line :: rest) build0)).
Proof.
  intros Hc Hh. rewrite fold_left_app. cbn [fold_left].
  fold (scan_before before). rewrite scan_line_candidate, Hc, Hh.
  match goal with |- context [fold_left scan_line rest ?s] =>
    destruct (scan_lines_extends rest s) as [more ->] end.
  cbn [tasks]. rewrite !in_app_iff. left. right. left. reflexivity.
Qed.

(** Without identity tags no line is dropped: the collection is the list of
    the candidates. *)
Lemma scan_lines_untagged_tasks lines :
  forall st k,
    (forall line, In line lines -> explicit_id line = None) ->
    uniqueId st = N.of_nat (S k) ->
    (forall x, In x (taskIds st) ->
               exists j, (j <= k)%nat /\ x = synth (N.of_nat j)) ->
    tasks (fold_left scan_line lines st) =
    tasks st ++ candidates (uniqueId st) lines.
Proof.
  induction lines as [|line lines IH]; intros st k Hun Hu Hids.
  - cbn. rewrite app_nil_r. reflexivity.
  - cbn [fold_left candidates]. rewrite scan_line_candidate.
    assert (Hl : explicit_id line = None) by (apply Hun; now left).
    assert (Hr : forall l, In l lines -> explicit_id l = None)
      by (intros l Hin; apply Hun; now right).
    destruct (recognised line) eqn:Er.
    + destruct (candidate_untagged (uniqueId st) line Hl Er) as [t [Hc Hid]].
      rewrite Hc.
      destruct (has (taskIds st) (id t)) eqn:Hh.
      { apply has_In in Hh. destruct (Hids _ Hh) as [j [Hj E]].
        rewrite Hid, Hu in E. apply synth_inj in E. lia. }
      rewrite (IH _ (S k)).
      * cbn [tasks uniqueId]. rewrite <- app_assoc. reflexivity.
      * exact Hr.
      * cbn [uniqueId]. rewrite Hu. lia.
      * cbn [taskIds]. intros x [Hx|Hx].
        -- exists (S k). split; [lia|]. rewrite <- Hx, Hid, Hu. reflexivity.
        -- destruct (Hids _ Hx) as [j [Hj E]]. exists j. split; [lia|exact E].
    + rewrite (candidate_unrecognised _ _ Er). apply (IH st k); assumption.
Qed.

(** The candidate at position [k] is read from the task line at position
    [k], at the counter value its predecessors have left. *)
Lemma candidates_untagged_nth lines :
  forall uid k line,
    (forall l, In l lines -> explicit_id l = None) ->
    nth_error (filter recognised lines) k = Some line ->
    exists t,
      nth_error (candidates uid lines) k = Some t
      /\ id t = synth (uid + N.of_nat k)
      /\ candidate (uid + N.of_nat k) line = Some (t, uid + N.of_nat k + 1).
Proof.
  induction lines as [|l lines IH]; intros uid k line Hun Hk.
  - destruct k; discriminate Hk.
  - assert (Hl : explicit_id l = None) by (apply Hun; now left).
    assert (Hr : forall x, In x lines -> explicit_id x = None)
      by (intros x Hin; apply Hun; now right).
    cbn [filter candidates] in *. destruct (recognised l) eqn:Er.
    + destruct (candidate_untagged uid l Hl Er) as [t [Hc Hid]]. rewrite Hc.
      destruct k as [|k].
      * injection Hk as <-. exists t. cbn [nth_error].
        rewrite N.add_0_r. auto.
      * cbn [nth_error] in *.
        destruct (IH (uid + 1) k line Hr Hk) as [t' [H1 [H2 H3]]].
        replace (uid + N.of_nat (S k)) with (uid + 1 + N.of_nat k) by lia.
        exists t'. auto.
    + rewrite (candidate_unrecognised _ _ Er). apply IH; assumption.
Qed.

(* ================================================================== *)
(** ** The properties of the specification *)
(* ================================================================== *)

(** C1.  Whatever the vault holds, no two tasks of the extracted collection
    share an identity, and for every identity the collection holds exactly
    what the first line yielding that identity (in document order, then line
    order) produced: later lines with the same identity, explicit or
    synthesized, leave no trace. *)
Theorem extraction_first_identity_wins :
  forall (vault : list str),
    NoDup (map id (getTasksFromNotes vault))
    /\ forall i,
         find_id i (getTasksFromNotes vault) =
         find_id i (candidates 1 (all_lines vault)).
Proof.
  intros vault. unfold getTasksFromNotes. rewrite scan_files_lines.
  destruct (scan_lines_first (all_lines vault) build0 consistent_build0) as [[_ Hnd] Hf].
  split; [exact Hnd|]. intros i. rewrite Hf. reflexivity.
Qed.

(** C2 (the flag is computed from the whole line).  On a line whose marker
    is [- [ ]] and whose item text mentions [- [x]], extraction reports the
    task as completed. *)
Theorem completed_scans_whole_line :
  startsWith (lit "- [ ] Explain the - [x] syntax [id:t1]") (lit "- [ ]") = true
  /\ getTasksFromNotes [lit "- [ ] Explain the - [x] syntax [id:t1]"] =
     [{| id := lit "t1"; name := lit "Explain the -  syntax";
         dependencies := []; completed := true |}].
Proof. vm_compute. split; reflexivity. Qed.







(** C5.  The line [- [ ] Buy milk [id:t1] [dependsOn:t0]] is extracted as
    the task with label [Buy milk], identity [t1], the single dependency
    [t0], and completion flag false. *)
Theorem label_stripping_example :
  getTasksFromNotes [lit "- [ ] Buy milk [id:t1] [dependsOn:t0]"] =
  [{| id := lit "t1"; name := lit "Buy milk";
      dependencies := [lit "t0"]; completed := false |}].
Proof. vm_compute. reflexivity. Qed.

(** C6.  In a vault where the parser finds no identity tag on any line, the
    extracted identities are exactly [task1], [task2], ..., one per
    recognised line, in document order and then line order: the task at
    position [k] of the collection is the one read from the [k]-th task
    line of the vault, with the identity the counter gives it there.  The
    counter starts at 1 in every build and goes up by one per synthesized
    identity. *)
Theorem fallback_identities_sequential :
  forall (vault : list str),
    no_explicit_ids vault = true ->
    map id (getTasksFromNotes vault) =
      fallback_ids (length (filter recognised (all_lines vault)))
    /\ forall (k : nat) (line : str),
         nth_error (filter recognised (all_lines vault)) k = Some line ->
         exists t,
           nth_error (getTasksFromNotes vault) k = Some t
           /\ id t = synth (N.of_nat (S k))
           /\ candidate (N.of_nat (S k)) line = Some (t, N.of_nat (S (S k))).
Proof.
  intros vault H.
  assert (Hun : forall line, In line (all_lines vault) -> explicit_id line = None).
  { unfold no_explicit_ids in H. rewrite forallb_forall in H.
    intros line Hin. specialize (H line Hin).
    destruct (explicit_id line); [discriminate|reflexivity]. }
  unfold getTasksFromNotes, fallback_ids. rewrite scan_files_lines. split.
  - rewrite (scan_lines_untagged (all_lines vault) build0 0 Hun);
      [reflexivity|reflexivity|intros x []].
  - intros k line Hk.
    rewrite (scan_lines_untagged_tasks (all_lines vault) build0 0 Hun);
      [|reflexivity|intros x []].
    cbn [tasks uniqueId build0 app].
    destruct (candidates_untagged_nth (all_lines vault) 1 k line Hun Hk)
      as [t [H1 [H2 H3]]].
    replace (1 + N.of_nat k) with (N.of_nat (S k)) in * by lia.
    replace (N.of_nat (S k) + 1) with (N.of_nat (S (S k))) in * by lia.
    exists t. auto.
Qed.

Lemma fallback_identities_sequential_witness :
  map id (getTasksFromNotes vault_untagged) =
    [lit "task1"; lit "task2"; lit "task3"]
  /\ exists t,
       nth_error (getTasksFromNotes vault_untagged) 2 = Some t
       /\ id t = lit "task3"
       /\ candidate 3 (lit "  - [ ] fold") = Some (t, 4).
Proof.
  destruct (fallback_identities_sequential vault_untagged) as [H1 H2].
  - vm_compute. reflexivity.
  - split; [rewrite H1; vm_compute; reflexivity|].
    apply (H2 2%nat (lit "  - [ ] fold")). vm_compute. reflexivity.
Defined.

(** C7 (as the code has it).  A line is taken for a task exactly when,
    somewhere in it and not only at its start, [- [ ] ] or [- [x] ] occurs
    and is followed by a character that is not a line terminator; on every
    other line the parser answers "not a task", and there is no failure
    case. *)
Theorem recognised_iff_marker_anywhere :
  forall (line : str),
    recognised line = true <->
    exists pre c x rest,
      line = pre ++ lit "- [" ++ c :: lit "] " ++ x :: rest
      /\ (c = 32 \/ c = 120)
      /\ is_line_terminator x = false.
Proof.
  intros line. unfold recognised. split.
  - destruct (exec re_task line) as [m|] eqn:E; [intros _|discriminate].
    destruct (exec_found _ _ _ E) as [u [v [Hs Hv]]].
    rewrite exec_at_task in Hv.
    destruct (marker_space v) eqn:Hm; [|discriminate].
    unfold marker_space in Hm.
    destruct (skipn 6 v) as [|x r] eqn:Hk; [discriminate|].
    cbn [span] in Hv. destruct (negb (is_line_terminator x)) eqn:Hx;
      [|discriminate].
    apply negb_true_iff in Hx.
    apply orb_true_iff in Hm. destruct Hm as [Hm|Hm];
      apply startsWith_inv in Hm;
      change (skipn (length _) v) with (skipn 6 v) in Hm; rewrite Hk in Hm.
    + exists u, 32, x, r. rewrite Hs, Hm.
      split; [reflexivity|]. split; [now left|exact Hx].
    + exists u, 120, x, r. rewrite Hs, Hm.
      split; [reflexivity|]. split; [now right|exact Hx].
  - intros [pre [c [x [r [Hl [Hc Hx]]]]]].
    assert (Hat : exists m, exec_at re_task (lit "- [" ++ c :: lit "] " ++ x :: r) = Some m).
    { rewrite exec_at_task.
      destruct Hc as [-> | ->]; cbn; rewrite Hx; cbn;
        destruct (span _ r); eexists; reflexivity. }
    destruct Hat as [m Hm].
    destruct (exec_some_app re_task pre _ m Hm) as [m' Hm'].
    rewrite Hl, Hm'. reflexivity.
Qed.

(** C7 (as stated).  [note - [x] done] is no line of the form [- [ ] ...]
    or [- [x] ...], and the parser takes it for a task all the same; and
    the marker with nothing after its blank has that form, and the parser
    does not take it for a task. *)
Lemma recognised_not_only_checklist_form :
  (recognised (lit "note - [x] done") = true
   /\ ~ checklist_form (lit "note - [x] done"))
  /\ (checklist_form (lit "- [ ] ")
      /\ recognised (lit "- [ ] ") = false).
Proof.
  split; split.
  - vm_compute. reflexivity.
  - intros [text [H|H]]; vm_compute in H; discriminate H.
  - exists []. left. reflexivity.
  - vm_compute. reflexivity.
Qed.

(** C8 (as the code has it).  [toggleTaskCompletion] rebuilds every
    document from its lines, swapping the marker of the lines that contain
    [[id:<taskId>]] and start with [- [ ]] or [- [x]] and copying every
    other line; it stores the rebuilt text trimmed, and it writes every
    document of the vault exactly once, in vault order, whether or not a
    line of it matched. *)
Theorem toggle_rewrites_every_document :
  forall (taskId : str) (v : Vault),
    files (snd (toggleTaskCompletion taskId v)) =
      map (fun content =>
             trim (fold_left (toggle_step taskId) (split_nl content) []))
          (files v)
    /\ modified (snd (toggleTaskCompletion taskId v)) =
         modified v
           ++ combine (seq 0 (length (files v)))
                      (files (snd (toggleTaskCompletion taskId v)))
    /\ forall acc line,
         toggle_step taskId acc line =
         acc
         ++ (if includes line (id_tag taskId)
                && (startsWith line (lit "- [ ]") || startsWith line (lit "- [x]"))
             then (if startsWith line (lit "- [ ]") then lit "- [x]"
                   else lit "- [ ]") ++ skipn 5 line
             else line)
         ++ [10].
Proof.
  intros taskId v. rewrite toggleTaskCompletion_run. cbn [snd files modified].
  split; [|split; [reflexivity|]].
  - apply map_ext. intros content. unfold toggle_content.
    rewrite (fold_rebuild (toggle_line taskId)); [reflexivity|].
    apply toggle_step_line.
  - intros acc line. rewrite toggle_step_line. do 2 f_equal. unfold toggle_line.
    destruct (includes line (id_tag taskId)); [|reflexivity].
    destruct (startsWith line (lit "- [ ]")); [reflexivity|].
    destruct (startsWith line (lit "- [x]")); reflexivity.
Qed.

(** C8 (as stated).  A document without any matching line is written all
    the same, and a line that does not match can change: the leading blanks
    of the first line go with the trim. *)
Lemma toggle_writes_unmatched_document :
  includes (lit "hello") (id_tag (lit "t1")) = false
  /\ modified (snd (toggleTaskCompletion (lit "t1") (vault_of [lit "hello"]))) =
     [(0%nat, lit "hello")]
  /\ after (toggleTaskCompletion (lit "t1"))
           [join_nl [lit "  intro"; lit "- [ ] a [id:t1]"]] =
     [join_nl [lit "intro"; lit "- [x] a [id:t1]"]].
Proof. vm_compute. repeat split. Qed.

(** C9.  A dependency on an identity no task carries is kept.  Let a line
    of the vault be a task line whose item text holds [[dependsOn:<ghost>]],
    [ghost] a non-empty run of word characters, let the scan find the
    line's identity new when it reaches the line, and let no extracted task
    have the identity [ghost]: then the task read from that line is in the
    collection with [ghost] among its dependencies, the projection has the
    edge from [ghost] to the task, and [ghost] is no node.  Extraction and
    projection are total functions, so neither can fail on such a vault. *)
Theorem dangling_dependency_projected :
  forall (vault before rest : list str) (line : str) (m : rmatch) (ghost : str),
    all_lines vault = before ++ line :: rest ->
    exec re_task line = Some m ->
    includes (trim (group1 m)) (dependsOn_tag ghost) = true ->
    word ghost -> ghost <> [] ->
    yields_new_id before line = true ->
    ~ In ghost (map id (getTasksFromNotes vault)) ->
    exists t uid',
      candidate (uniqueId (scan_before before)) line = Some (t, uid')
      /\ In t (getTasksFromNotes vault)
      /\ In ghost (dependencies t)
      /\ In {| from := ghost; to := id t |} (edges_of (getTasksFromNotes vault))
      /\ ~ In ghost (map node_id (nodes_of (getTasksFromNotes vault))).
Proof.
  intros vault before rest line m ghost Hlines Em Hin Hw Hne Hnew Hg.
  unfold yields_new_id in Hnew.
  destruct (candidate (uniqueId (scan_before before)) line) as [[t uid']|] eqn:Ec;
    [|discriminate].
  apply negb_true_iff in Hnew.
  assert (Ht : In t (getTasksFromNotes vault)).
  { unfold getTasksFromNotes. rewrite scan_files_lines, Hlines.
    exact (new_id_extracted before line rest t uid' Ec Hnew). }
  assert (Hd : In ghost (dependencies t))
    by exact (declared_dependency_extracted _ line m ghost t uid' Em Hw Hne Hin Ec).
  exists t, uid'. split; [reflexivity|]. split; [exact Ht|]. split; [exact Hd|].
  split.
  - apply edges_of_In; assumption.
  - rewrite nodes_of_ids. exact Hg.
Qed.

Lemma dangling_dependency_projected_witness :
  exists t uid',
    candidate 2 (lit "- [ ] Ship it [id:t1] [dependsOn:ghost]") = Some (t, uid')
    /\ In t (getTasksFromNotes vault_ghost)
    /\ In (lit "ghost") (dependencies t)
    /\ In {| from := lit "ghost"; to := id t |}
          (edges_of (getTasksFromNotes vault_ghost))
    /\ ~ In (lit "ghost") (map node_id (nodes_of (getTasksFromNotes vault_ghost))).
Proof.
  eapply (dangling_dependency_projected vault_ghost
            [lit "- [ ] Pack"; lit "notes"] [lit "- [x] Done [id:t1]"]
            (lit "- [ ] Ship it [id:t1] [dependsOn:ghost]") _ (lit "ghost")).
  - vm_compute. reflexivity.
  - vm_compute. reflexivity.
  - vm_compute. reflexivity.
  - reflexivity.
  - discriminate.
  - vm_compute. reflexivity.
  - vm_compute. intros [H|[H|[]]]; discriminate H.
Defined.

(** C10 (as the code has it).  With identities made of word characters:
    on a line that contains [[id:<toId>]], does not contain
    [[dependsOn:<fromId>]] and ends in [']'], the loop of
    [updateTaskDependency] puts [ [dependsOn:<fromId>]] in front of that
    final bracket.  When the line ends in [[id:<toId>]] and has no other
    [[id:] in it, the rewritten line (which embeds the new tag in the
    identity tag) no longer contains [[id:<toId>]]:
    [toggleTaskCompletion toId] and any further [updateTaskDependency _ toId]
    copy it unchanged, the line is a task exactly when it was one before,
    the parser finds no identity tag on it, and a task extracted from it
    gets the synthesized identity of the counter, which is not [toId]
    unless [toId] is itself of the form [task<n>]. *)
Theorem dependency_splice_breaks_last_id_tag :
  forall (fromId toId : str),
    word fromId -> word toId ->
    (forall init acc,
        includes (init ++ [93]) (id_tag toId) = true ->
        includes (init ++ [93]) (dependsOn_tag fromId) = false ->
        dependency_step fromId toId acc (init ++ [93]) =
        acc ++ (init ++ lit " [dependsOn:" ++ fromId ++ lit "]") ++ [93] ++ [10])
    /\ (forall pre,
          includes pre (lit "[id:") = false ->
          includes (pre ++ id_tag toId) (dependsOn_tag fromId) = false ->
          (forall acc,
              dependency_step fromId toId acc (pre ++ id_tag toId) =
              acc ++ spliced_line pre fromId toId ++ [10])
          /\ includes (spliced_line pre fromId toId) (id_tag toId) = false
          /\ (forall acc,
                toggle_step toId acc (spliced_line pre fromId toId) =
                acc ++ spliced_line pre fromId toId ++ [10])
          /\ (forall other acc,
                dependency_step other toId acc (spliced_line pre fromId toId) =
                acc ++ spliced_line pre fromId toId ++ [10])
          /\ recognised (spliced_line pre fromId toId) =
             recognised (pre ++ id_tag toId)
          /\ explicit_id (spliced_line pre fromId toId) = None
          /\ (forall uid t uid',
                candidate uid (spliced_line pre fromId toId) = Some (t, uid') ->
                id t = synth uid
                /\ ((forall n, toId <> synth n) -> id t <> toId))).
Proof.
  intros A B HA HB. split.
  - intros init acc Hi Hd. rewrite dependency_step_line.
    unfold dependency_line. rewrite Hi, Hd, replace_final_bracket_last.
    rewrite (dependency_template_plain A _ _ _ HA).
    change (lit "]]") with ([93] ++ [93]). rewrite <- !app_assoc. reflexivity.
  - intros pre Hpre Hd.
    assert (Hline : dependency_line A B (pre ++ id_tag B) = spliced_line pre A B).
    { assert (Hi : includes (pre ++ id_tag B) (id_tag B) = true)
        by (apply includes_iff; exists pre, []; rewrite app_nil_r; reflexivity).
      unfold dependency_line, spliced_line. rewrite Hd, Hi.
      unfold id_tag. change (lit "]") with [93].
      rewrite !app_assoc, replace_final_bracket_last.
      rewrite (dependency_template_plain A _ _ _ HA).
      rewrite <- !app_assoc. reflexivity. }
    assert (Hno : forall w, word w ->
              includes (spliced_line pre A B) (id_tag w) = false).
    { intros w Hw. apply spliced_line_no_id; assumption. }
    assert (Hex : explicit_id (spliced_line pre A B) = None).
    { destruct (explicit_id _) as [w|] eqn:E; [|reflexivity].
      pose proof (explicit_id_in_line _ _ E) as Hin.
      rewrite Hno in Hin; [discriminate|].
      unfold explicit_id in E.
      destruct (exec re_task _) as [m|]; [|discriminate].
      destruct (exec re_id (trim (group1 m))) as [m'|] eqn:Ei; [|discriminate].
      injection E as <-. apply (id_match_in_text _ _ Ei). }
    split; [|split; [apply Hno, HB|]].
    { intros acc. rewrite dependency_step_line, Hline. reflexivity. }
    split; [|split; [|split; [|split; [exact Hex|]]]].
    + intros acc. rewrite toggle_step_line. unfold toggle_line.
      rewrite (Hno B HB). reflexivity.
    + intros other acc. rewrite dependency_step_line.
      unfold dependency_line at 1. rewrite (Hno B HB). reflexivity.
    + apply recognised_after_splice; assumption.
    + intros uid t uid' Hc.
      assert (H : id t = synth uid)
        by (destruct (candidate_id _ _ _ _ Hc) as [H|H]; [congruence|exact H]).
      split; [exact H|]. intros Hn E. apply (Hn uid). congruence.
Qed.

Lemma dependency_splice_breaks_last_id_tag_witness :
  dependency_step (lit "t0") (lit "t1") [] (lit "- [ ] a " ++ id_tag (lit "t1")) =
    lit "- [ ] a [id:t1 [dependsOn:t0]]" ++ [10]
  /\ explicit_id (lit "- [ ] a [id:t1 [dependsOn:t0]]") = None
  /\ forall t uid',
       candidate 1 (spliced_line (lit "- [ ] a ") (lit "t0") (lit "t1")) =
         Some (t, uid') ->
       id t = lit "task1" /\ id t <> lit "t1".
Proof.
  destruct (dependency_splice_breaks_last_id_tag (lit "t0") (lit "t1")
              eq_refl eq_refl) as [_ H].
  destruct (H (lit "- [ ] a ") eq_refl eq_refl) as [H1 [_ [_ [_ [_ [H5 H6]]]]]].
  split; [exact (H1 [])|]. split; [exact H5|].
  intros t uid' Hc. destruct (H6 1 t uid' Hc) as [Hs Hn].
  split; [exact Hs|]. apply Hn. intros n E. vm_compute in E. discriminate E.
Defined.

(** The same on a whole vault: the task [t1] comes back as [task1]. *)
Example splice_then_extract :
  map id (getTasksFromNotes [lit "- [ ] a [id:t1]"]) = [lit "t1"]
  /\ after (updateTaskDependency (lit "t0") (lit "t1")) [lit "- [ ] a [id:t1]"] =
     [lit "- [ ] a [id:t1 [dependsOn:t0]]"]
  /\ getTasksFromNotes
       (after (updateTaskDependency (lit "t0") (lit "t1")) [lit "- [ ] a [id:t1]"]) =
     [{| id := lit "task1"; name := lit "a ]";
         dependencies := [lit "t0"]; completed := false |}].
Proof. vm_compute. repeat split. Qed.

(** C10 (as stated).  On [- [ ] a [id:B] [id:B]] the last bracketed tag is
    [[id:B]], yet the rewritten line still contains [[id:B]]: a toggle of
    [B] still rewrites it, and extraction still reads the identity [B].
    And on [- [ ] a [id:task1]] the rewritten line has lost its tag, but
    the identity synthesized for it is [task1] again: the task keeps the
    identity [toId]. *)
Lemma splice_keeps_earlier_id_tag :
  (after (updateTaskDependency (lit "A") (lit "B")) [lit "- [ ] a [id:B] [id:B]"] =
     [lit "- [ ] a [id:B] [id:B [dependsOn:A]]"]
   /\ includes (lit "- [ ] a [id:B] [id:B [dependsOn:A]]") (id_tag (lit "B")) = true
   /\ after (toggleTaskCompletion (lit "B")) [lit "- [ ] a [id:B] [id:B [dependsOn:A]]"] =
      [lit "- [x] a [id:B] [id:B [dependsOn:A]]"]
   /\ map id (getTasksFromNotes [lit "- [ ] a [id:B] [id:B [dependsOn:A]]"]) =
      [lit "B"])
  /\ (map id (getTasksFromNotes [lit "- [ ] a [id:task1]"]) = [lit "task1"]
      /\ after (updateTaskDependency (lit "A") (lit "task1"))
               [lit "- [ ] a [id:task1]"] =
         [lit "- [ ] a [id:task1 [dependsOn:A]]"]
      /\ includes (lit "- [ ] a [id:task1 [dependsOn:A]]")
                  (id_tag (lit "task1")) = false
      /\ map id
           (getTasksFromNotes
              (after (updateTaskDependency (lit "A") (lit "task1"))
                     [lit "- [ ] a [id:task1]"])) =
         [lit "task1"]).
Proof. vm_compute. repeat split. Qed.

(* ================================================================== *)
(** ** Further properties: the mutators *)
(* ================================================================== *)

Lemma toggle_content_trimmed t d : trimmed (toggle_content t d).
Proof. apply trim_trimmed. Qed.

Lemma dependency_content_trimmed A B d : trimmed (dependency_content A B d).
Proof. apply trim_trimmed. Qed.

Lemma Forall_trimmed_map (f : str -> str) vault :
  (forall d, trimmed (f d)) -> Forall trimmed (map f vault).
Proof.
  intros H. apply Forall_forall. intros d Hd. apply in_map_iff in Hd.
  destruct Hd as [d0 [<- _]]. apply H.
Qed.

Lemma rebuild_split d : rebuild (split_nl d) = d ++ [10].
Proof. rewrite (rebuild_join _ (split_nl_nonempty d)), join_split. reflexivity. Qed.

(** A document none of whose lines is rewritten is only trimmed. *)
Lemma content_unchanged (f : str -> str) d :
  (forall l, In l (split_nl d) -> f l = l) ->
  trim (rebuild (map f (split_nl d))) = trim d.
Proof.
  intros H. rewrite (map_ext_in f (fun l => l) _ H), map_id, rebuild_split.
  apply trim_app_ws. reflexivity.
Qed.

Lemma in_all_lines vault d l :
  In d vault -> In l (split_nl d) -> In l (all_lines vault).
Proof. intros Hd Hl. unfold all_lines. apply in_flat_map. exists d. tauto. Qed.

(** *** The marker swap *)

Lemma toggle_line_swap t l :
  toggle_line t l = if includes l (id_tag t) then swap_marker l else l.
Proof. reflexivity. Qed.

Lemma swap_marker_cases l :
  (swap_marker l = l
   /\ startsWith l (lit "- [ ]") = false /\ startsWith l (lit "- [x]") = false)
  \/ exists rest,
       (l = lit "- [ ]" ++ rest /\ swap_marker l = lit "- [x]" ++ rest)
       \/ (l = lit "- [x]" ++ rest /\ swap_marker l = lit "- [ ]" ++ rest).
Proof.
  unfold swap_marker.
  destruct (startsWith l (lit "- [ ]")) eqn:E1.
  - right. exists (skipn 5 l). left. split; [|reflexivity].
    apply startsWith_inv in E1. exact E1.
  - destruct (startsWith l (lit "- [x]")) eqn:E2.
    + right. exists (skipn 5 l). right. split; [|reflexivity].
      apply startsWith_inv in E2. exact E2.
    + left. auto.
Qed.

Lemma swap_marker_involutive l : swap_marker (swap_marker l) = l.
Proof.
  destruct (swap_marker_cases l) as [[H _]|[rest [[Hl H]|[Hl H]]]].
  - rewrite H. exact H.
  - rewrite H, Hl. reflexivity.
  - rewrite H, Hl. reflexivity.
Qed.

Lemma includes_swap_marker t l :
  includes (swap_marker l) (id_tag t) = includes l (id_tag t).
Proof.
  destruct (swap_marker_cases l) as [[H _]|[rest [[Hl H]|[Hl H]]]].
  - rewrite H. reflexivity.
  - rewrite H, Hl, includes_id_tag_marker_open, includes_id_tag_marker_done.
    reflexivity.
  - rewrite H, Hl, includes_id_tag_marker_open, includes_id_tag_marker_done.
    reflexivity.
Qed.

Lemma toggle_line_commute a b l :
  toggle_line a (toggle_line b l) = toggle_line b (toggle_line a l).
Proof.
  rewrite !toggle_line_swap.
  destruct (includes l (id_tag a)) eqn:Ha; destruct (includes l (id_tag b)) eqn:Hb;
    rewrite ?includes_swap_marker, ?Ha, ?Hb; reflexivity.
Qed.

Lemma toggle_content_commute a b d :
  trimmed d ->
  toggle_content a (toggle_content b d) = toggle_content b (toggle_content a d).
Proof.
  intros Hd.
  destruct (toggle_content_lines a d Hd) as [_ [Ha Hta]].
  destruct (toggle_content_lines b d Hd) as [_ [Hb Htb]].
  destruct (toggle_content_lines a _ Htb) as [Hab _].
  destruct (toggle_content_lines b _ Hta) as [Hba _].
  rewrite Hab, Hba, Ha, Hb, !map_map. f_equal.
  apply map_ext. intros l. apply toggle_line_commute.
Qed.

(** *** Extraction does not see the marker swap, but for the flag *)

Lemma task_of_unflagged taskName uid b b' :
  unflagged (fst (task_of taskName uid b)) = unflagged (fst (task_of taskName uid b'))
  /\ snd (task_of taskName uid b) = snd (task_of taskName uid b').
Proof. unfold task_of. destruct (exec re_id taskName); split; reflexivity. Qed.

Lemma candidate_fields_by_capture uid l l' :
  option_map group1 (exec re_task l') = option_map group1 (exec re_task l) ->
  option_map (fun p => (unflagged (fst p), snd p)) (candidate uid l') =
  option_map (fun p => (unflagged (fst p), snd p)) (candidate uid l).
Proof.
  unfold candidate. intros H.
  destruct (exec re_task l') as [m'|]; destruct (exec re_task l) as [m|];
    try discriminate; [|reflexivity].
  injection H as H. rewrite H. cbn [option_map].
  destruct (task_of_unflagged (trim (group1 m)) uid
              (includes l' (lit "- [x]")) (includes l (lit "- [x]"))) as [H1 H2].
  rewrite H1, H2. reflexivity.
Qed.

Lemma candidate_swap_fields uid l :
  option_map (fun p => (unflagged (fst p), snd p)) (candidate uid (swap_marker l)) =
  option_map (fun p => (unflagged (fst p), snd p)) (candidate uid l).
Proof.
  apply candidate_fields_by_capture.
  destruct (swap_marker_cases l) as [[H _]|[rest [[Hl H]|[Hl H]]]];
    rewrite H; [reflexivity| |]; rewrite Hl.
  - apply exec_task_marker_swap.
  - symmetry. apply exec_task_marker_swap.
Qed.

Lemma candidate_toggle_fields t uid l :
  option_map (fun p => (unflagged (fst p), snd p)) (candidate uid (toggle_line t l)) =
  option_map (fun p => (unflagged (fst p), snd p)) (candidate uid l).
Proof.
  rewrite toggle_line_swap. destruct (includes l (id_tag t)); [|reflexivity].
  apply candidate_swap_fields.
Qed.

(** The scan of rewritten lines, when the rewrite shows in no field of a
    candidate but the flag. *)
Lemma scan_lines_unflagged (f : str -> str) lines :
  (forall l uid,
      option_map (fun p => (unflagged (fst p), snd p)) (candidate uid (f l)) =
      option_map (fun p => (unflagged (fst p), snd p)) (candidate uid l)) ->
  forall st st',
    map unflagged (tasks st') = map unflagged (tasks st) ->
    taskIds st' = taskIds st ->
    uniqueId st' = uniqueId st ->
    map unflagged (tasks (fold_left scan_line (map f lines) st')) =
    map unflagged (tasks (fold_left scan_line lines st)).
Proof.
  intros Hf. induction lines as [|l lines IH]; intros st st' Ht Hi Hu;
    [exact Ht|].
  cbn [map fold_left]. rewrite !scan_line_candidate.
  specialize (Hf l (uniqueId st)). rewrite Hu.
  destruct (candidate (uniqueId st) (f l)) as [[k' u']|];
    destruct (candidate (uniqueId st) l) as [[k u]|];
    try discriminate; [|apply IH; assumption].
  cbn [option_map fst snd] in Hf.
  assert (Hk : unflagged k' = unflagged k) by congruence.
  assert (Hu' : u' = u) by congruence. subst u'.
  assert (Hid : id k' = id k) by (unfold unflagged in Hk; congruence).
  rewrite Hi, Hid.
  destruct (has (taskIds st) (id k)); apply IH; cbn [tasks taskIds uniqueId];
    try assumption; try reflexivity.
  rewrite !map_app, Ht. cbn [map]. rewrite Hk. reflexivity.
Qed.

(** *** Laws of the mutators *)

(** X1.  After [toggleTaskCompletion] as after [updateTaskDependency],
    whatever the vault held, every document is free of leading and trailing
    white space: both write [updatedContent.trim()]. *)
Theorem mutators_leave_documents_trimmed :
  forall (vault : list str) (taskId fromId toId : str),
    Forall trimmed (after (toggleTaskCompletion taskId) vault)
    /\ Forall trimmed (after (updateTaskDependency fromId toId) vault).
Proof.
  intros vault taskId fromId toId. rewrite after_toggle, after_dependency.
  split; apply Forall_trimmed_map; intros d.
  - apply toggle_content_trimmed.
  - apply dependency_content_trimmed.
Qed.

(** X2.  On any vault, three toggles of an identity leave what one toggle
    leaves: once the first toggle has trimmed the documents, a pair of
    toggles cancels. *)
Theorem toggle_three_times_is_once :
  forall (vault : list str) (taskId : str),
    after (toggleTaskCompletion taskId)
      (after (toggleTaskCompletion taskId)
         (after (toggleTaskCompletion taskId) vault)) =
    after (toggleTaskCompletion taskId) vault.
Proof.
  intros vault t. rewrite !after_toggle. apply map_toggle_twice.
  apply Forall_trimmed_map. intros d. apply toggle_content_trimmed.
Qed.

(** X3.  On any vault, and for a [fromId] made of word characters, a third
    [updateTaskDependency fromId toId] changes nothing any more: the second
    call may still splice (the first may only have trimmed), the third
    finds the vault as the second left it. *)
Theorem dependency_settles_after_two_calls :
  forall (vault : list str) (fromId toId : str),
    word fromId ->
    after (updateTaskDependency fromId toId)
      (after (updateTaskDependency fromId toId)
         (after (updateTaskDependency fromId toId) vault)) =
    after (updateTaskDependency fromId toId)
      (after (updateTaskDependency fromId toId) vault).
Proof.
  intros vault A B HA. rewrite !after_dependency.
  induction vault as [|d vault IH]; [reflexivity|].
  cbn [map]. rewrite IH. f_equal.
  apply (dependency_content_twice A B HA). apply dependency_content_trimmed.
Qed.

Lemma dependency_settles_after_two_calls_witness :
  after (updateTaskDependency (lit "A") (lit "B"))
    (after (updateTaskDependency (lit "A") (lit "B"))
       (after (updateTaskDependency (lit "A") (lit "B")) [lit "- [ ] a [id:B] "])) =
  [lit "- [ ] a [id:B [dependsOn:A]]"].
Proof.
  rewrite (dependency_settles_after_two_calls [lit "- [ ] a [id:B] "]
             (lit "A") (lit "B") eq_refl).
  vm_compute. reflexivity.
Defined.

(** X4.  A toggle of an identity whose tag is on no line rewrites no line:
    the documents come back trimmed and otherwise as they were. *)
Theorem toggle_of_absent_tag_only_trims :
  forall (vault : list str) (taskId : str),
    forallb (fun line => negb (includes line (id_tag taskId)))
            (all_lines vault) = true ->
    after (toggleTaskCompletion taskId) vault = map trim vault.
Proof.
  intros vault t H. rewrite after_toggle. rewrite forallb_forall in H.
  apply map_ext_in. intros d Hd. unfold toggle_content.
  apply content_unchanged. intros l Hl.
  specialize (H l (in_all_lines vault d l Hd Hl)).
  apply negb_true_iff in H. unfold toggle_line. rewrite H. reflexivity.
Qed.

Lemma toggle_of_absent_tag_only_trims_witness :
  after (toggleTaskCompletion (lit "t9")) vault_untagged =
  map trim vault_untagged.
Proof. apply toggle_of_absent_tag_only_trims. vm_compute. reflexivity. Defined.

(** X5.  When every line that contains [[id:<toId>]] already contains
    [[dependsOn:<fromId>]] (in particular when no line contains the
    identity tag), [updateTaskDependency] rewrites no line: the documents
    come back trimmed and otherwise as they were. *)
Theorem dependency_already_declared_only_trims :
  forall (vault : list str) (fromId toId : str),
    forallb (fun line => negb (includes line (id_tag toId))
                         || includes line (dependsOn_tag fromId))
            (all_lines vault) = true ->
    after (updateTaskDependency fromId toId) vault = map trim vault.
Proof.
  intros vault A B H. rewrite after_dependency. rewrite forallb_forall in H.
  apply map_ext_in. intros d Hd. unfold dependency_content.
  apply content_unchanged. intros l Hl.
  specialize (H l (in_all_lines vault d l Hd Hl)).
  unfold dependency_line.
  destruct (includes l (id_tag B)); [|reflexivity].
  cbn [negb orb] in H. rewrite H. reflexivity.
Qed.

Lemma dependency_already_declared_only_trims_witness :
  after (updateTaskDependency (lit "t2") (lit "t1")) vault_tagged =
  map trim vault_tagged.
Proof.
  apply dependency_already_declared_only_trims. vm_compute. reflexivity.
Defined.

(** X6.  [updateTaskDependency] rebuilds every document from its lines with
    the loop of the source, stores it trimmed, and writes every document of
    the vault exactly once, in vault order, matched or not. *)
Theorem dependency_rewrites_every_document :
  forall (fromId toId : str) (v : Vault),
    files (snd (updateTaskDependency fromId toId v)) =
      map (fun content =>
             trim (fold_left (dependency_step fromId toId) (split_nl content) []))
          (files v)
    /\ modified (snd (updateTaskDependency fromId toId v)) =
         modified v
           ++ combine (seq 0 (length (files v)))
                      (files (snd (updateTaskDependency fromId toId v))).
Proof.
  intros A B v. rewrite updateTaskDependency_run. cbn [snd files modified].
  split; [|reflexivity].
  apply map_ext. intros content. unfold dependency_content.
  rewrite (fold_rebuild (dependency_line A B)); [reflexivity|].
  apply dependency_step_line.
Qed.

(** X7.  On a vault of trimmed documents a toggle, of whatever identity,
    changes no identity, no label and no dependency of the extracted
    collection, nor the order or number of its tasks: completion flags are
    all it can change. *)
Theorem toggle_keeps_ids_labels_dependencies :
  forall (vault : list str) (taskId : str),
    Forall trimmed vault ->
    map unflagged (getTasksFromNotes (after (toggleTaskCompletion taskId) vault)) =
    map unflagged (getTasksFromNotes vault).
Proof.
  intros vault t Htrim. rewrite after_toggle. unfold getTasksFromNotes.
  rewrite !scan_files_lines, (all_lines_toggle t vault Htrim).
  apply scan_lines_unflagged; try reflexivity.
  intros l uid. apply candidate_toggle_fields.
Qed.

Lemma toggle_keeps_ids_labels_dependencies_witness :
  map unflagged (getTasksFromNotes (after (toggleTaskCompletion (lit "t1")) vault_tagged)) =
  map unflagged (getTasksFromNotes vault_tagged).
Proof. apply toggle_keeps_ids_labels_dependencies. repeat constructor. Defined.

(** X8.  On a vault of trimmed documents, toggles of two identities
    commute. *)
Theorem toggles_commute :
  forall (vault : list str) (a b : str),
    Forall trimmed vault ->
    after (toggleTaskCompletion a) (after (toggleTaskCompletion b) vault) =
    after (toggleTaskCompletion b) (after (toggleTaskCompletion a) vault).
Proof.
  intros vault a b Htrim. rewrite !after_toggle, !map_map.
  apply map_ext_in. intros d Hd. apply toggle_content_commute.
  rewrite Forall_forall in Htrim. apply Htrim, Hd.
Qed.

Lemma toggles_commute_witness :
  after (toggleTaskCompletion (lit "t1"))
        (after (toggleTaskCompletion (lit "t2")) vault_tagged) =
  after (toggleTaskCompletion (lit "t2"))
        (after (toggleTaskCompletion (lit "t1")) vault_tagged).
Proof. apply toggles_commute. repeat constructor. Defined.

(** *** The hooks *)

Lemma updateTaskDependency_log_length A B v :
  length (modified (snd (updateTaskDependency A B v))) =
  (length (modified v) + length (files v))%nat.
Proof.
  rewrite updateTaskDependency_run. cbn [snd modified].
  rewrite length_app, length_combine, length_seq, length_map, Nat.min_id.
  reflexivity.
Qed.

(** X9.  [addEdge] answers [null] exactly for an edge from a node to
    itself, and then it touches neither a document nor the write log;
    for any other edge it answers with the edge and writes every document
    of the vault once. *)
Theorem addEdge_rejects_self_dependency :
  forall (e : Edge) (v : Vault),
    (fst (addEdge e v) = None <-> from e = to e)
    /\ (from e = to e -> snd (addEdge e v) = v)
    /\ (from e <> to e ->
        fst (addEdge e v) = Some e
        /\ files (snd (addEdge e v)) =
           map (dependency_content (from e) (to e)) (files v)
        /\ length (modified (snd (addEdge e v))) =
           (length (modified v) + length (files v))%nat).
Proof.
  intros e v. unfold addEdge.
  destruct (str_eqb (from e) (to e)) eqn:E.
  - apply str_eqb_eq in E. cbn. split; [tauto|]. split; [reflexivity|tauto].
  - assert (Hne : from e <> to e)
      by (intros H; rewrite H, str_eqb_refl in E; discriminate).
    unfold bind, ret.
    pose proof (updateTaskDependency_log_length (from e) (to e) v) as Hlen.
    rewrite updateTaskDependency_run in *. cbn [fst snd files modified] in *.
    split; [split; [discriminate|tauto]|]. split; [tauto|].
    intros _. split; [reflexivity|]. split; [reflexivity|exact Hlen].
Qed.

Lemma addEdge_rejects_self_dependency_witness :
  addEdge {| from := lit "t1"; to := lit "t1" |} (vault_of vault_tagged) =
  (None, vault_of vault_tagged).
Proof.
  destruct (addEdge_rejects_self_dependency
              {| from := lit "t1"; to := lit "t1" |} (vault_of vault_tagged))
    as [[_ H1] [H2 _]].
  specialize (H1 eq_refl). specialize (H2 eq_refl).
  destruct (addEdge _ _) as [r v']. cbn [fst snd] in *. congruence.
Defined.

(* ================================================================== *)
(** ** Further properties: extraction and projection *)
(* ================================================================== *)

(** Every task of the scan was already there or is what a line yields. *)
Lemma scan_lines_provenance lines :
  forall st t,
    In t (tasks (fold_left scan_line lines st)) ->
    In t (tasks st)
    \/ exists uid line uid',
         In line lines /\ candidate uid line = Some (t, uid').
Proof.
  induction lines as [|l lines IH]; intros st t Hin; [now left|].
  cbn [fold_left] in Hin. apply IH in Hin.
  destruct Hin as [Hin|[uid [line [uid' [Hl Hc]]]]].
  - rewrite scan_line_candidate in Hin.
    destruct (candidate (uniqueId st) l) as [[k u]|] eqn:Ec; [|now left].
    destruct (has (taskIds st) (id k)); cbn [tasks] in Hin; [now left|].
    apply in_app_iff in Hin. destruct Hin as [Hin|[<-|[]]]; [now left|].
    right. exists (uniqueId st), l, u. split; [now left|exact Ec].
  - right. exists uid, line, uid'. split; [now right|exact Hc].
Qed.

Lemma extracted_provenance vault t :
  In t (getTasksFromNotes vault) ->
  exists uid line uid',
    In line (all_lines vault) /\ candidate uid line = Some (t, uid').
Proof.
  unfold getTasksFromNotes. rewrite scan_files_lines. intros Hin.
  apply scan_lines_provenance in Hin. destruct Hin as [[]|H]. exact H.
Qed.

(** *** Identities and dependencies *)

Lemma id_match_nonempty s m : exec re_id s = Some m -> group1 m <> [].
Proof.
  intros H. destruct (exec_found _ _ _ H) as [u [v [_ Hv]]].
  apply (exec_at_tag_inv (lit "[id:") v m Hv).
Qed.

Lemma synth_nonempty n : synth n <> [].
Proof. unfold synth. discriminate. Qed.

(** Every match of [/\[dependsOn:(\w+)\]/g] is a tag around a non-empty
    word. *)
Lemma match_all_from_tags s :
  forall k x,
    In x (match_all_from k re_dependsOn s) ->
    exists w, x = dependsOn_tag w /\ word w /\ w <> [].
Proof.
  induction s as [|c s IH]; intros k x Hin; [destruct Hin|].
  cbn [match_all_from] in Hin. destruct k as [|k]; [|exact (IH _ _ Hin)].
  destruct (exec_at re_dependsOn (c :: s)) as [m|] eqn:E; [|exact (IH _ _ Hin)].
  destruct Hin as [<-|Hin]; [|exact (IH _ _ Hin)].
  destruct (exec_at_tag_inv (lit "[dependsOn:") _ m E) as [_ [Hw [Hne Hwhole]]].
  exists (group1 m). split; [exact Hwhole|]. split; assumption.
Qed.

Lemma candidate_dependencies uid line t uid' d :
  candidate uid line = Some (t, uid') -> In d (dependencies t) ->
  word d /\ d <> [].
Proof.
  unfold candidate, task_of.
  destruct (exec re_task line) as [m|]; [|discriminate].
  destruct (exec re_id (trim (group1 m))); intros [= <- _]; cbn [dependencies];
    intros Hd; apply in_map_iff in Hd; destruct Hd as [x [<- Hx]];
    apply match_all_from_tags in Hx; destruct Hx as [w [-> [Hw Hne]]];
    rewrite slice_dependsOn_tag; split; assumption.
Qed.

Lemma candidate_id_nonempty uid line t uid' :
  candidate uid line = Some (t, uid') -> id t <> [].
Proof.
  unfold candidate, task_of.
  destruct (exec re_task line) as [m|]; [|discriminate].
  destruct (exec re_id (trim (group1 m))) as [m'|] eqn:Ei; intros [= <- _];
    cbn [id].
  - exact (id_match_nonempty _ _ Ei).
  - apply synth_nonempty.
Qed.

(** X10.  Every identity of the extracted collection, and every dependency
    of every extracted task, is a non-empty run of word characters. *)
Theorem extracted_ids_and_dependencies_are_words :
  forall (vault : list str) (t : Task),
    In t (getTasksFromNotes vault) ->
    (word (id t) /\ id t <> [])
    /\ forall d, In d (dependencies t) -> word d /\ d <> [].
Proof.
  intros vault t Hin.
  destruct (extracted_provenance vault t Hin) as [uid [line [uid' [_ Hc]]]].
  split; [split|].
  - exact (candidate_id_word _ _ _ _ Hc).
  - exact (candidate_id_nonempty _ _ _ _ Hc).
  - intros d Hd. exact (candidate_dependencies _ _ _ _ d Hc Hd).
Qed.

Lemma extracted_ids_and_dependencies_are_words_witness :
  word (lit "t1") /\ lit "t1" <> [].
Proof.
  assert (Hin : In {| id := lit "t1"; name := lit "a";
                      dependencies := [lit "t2"]; completed := false |}
                   (getTasksFromNotes vault_tagged))
    by (vm_compute; left; reflexivity).
  exact (proj1 (extracted_ids_and_dependencies_are_words vault_tagged _ Hin)).
Defined.

(** *** Nodes and edges *)

(** X11.  The nodes [renderGraph] builds from an extracted collection have
    pairwise distinct ids, one node per task and in the order of the
    tasks. *)
Theorem node_ids_distinct :
  forall (vault : list str),
    NoDup (map node_id (nodes_of (getTasksFromNotes vault)))
    /\ map node_id (nodes_of (getTasksFromNotes vault)) =
       map id (getTasksFromNotes vault).
Proof.
  intros vault. rewrite nodes_of_ids. split; [|reflexivity].
  unfold getTasksFromNotes. rewrite scan_files_lines.
  apply (scan_lines_first (all_lines vault) build0 consistent_build0).
Qed.

(** X12.  Every edge [renderGraph] builds from an extracted collection
    ends at a node of the graph, namely at the task that declares the
    dependency, and starts at a non-empty run of word characters: only the
    [from] end of an edge can be missing from the graph. *)
Theorem edges_end_at_nodes :
  forall (vault : list str) (e : Edge),
    In e (edges_of (getTasksFromNotes vault)) ->
    In (to e) (map node_id (nodes_of (getTasksFromNotes vault)))
    /\ (word (from e) /\ from e <> [])
    /\ exists t,
         In t (getTasksFromNotes vault)
         /\ to e = id t /\ In (from e) (dependencies t).
Proof.
  intros vault e. rewrite nodes_of_ids. unfold edges_of. rewrite in_flat_map.
  intros [t [Ht He]]. apply in_map_iff in He. destruct He as [d [<- Hd]].
  cbn [to from]. split; [apply in_map; exact Ht|]. split.
  - destruct (extracted_provenance vault t Ht) as [uid [line [uid' [_ Hc]]]].
    exact (candidate_dependencies _ _ _ _ d Hc Hd).
  - exists t. repeat split; assumption.
Qed.

Lemma edges_end_at_nodes_witness :
  In (lit "t1") (map node_id (nodes_of (getTasksFromNotes vault_tagged))).
Proof.
  assert (Hin : In {| from := lit "t2"; to := lit "t1" |}
                   (edges_of (getTasksFromNotes vault_tagged)))
    by (vm_compute; left; reflexivity).
  exact (proj1 (edges_end_at_nodes vault_tagged _ Hin)).
Defined.

(** *** Labels *)

Lemma span_stops_at_close s :
  match snd (span (fun c => negb (c =? 93)) s) with
  | [] => True
  | d :: _ => d = 93
  end.
Proof.
  induction s as [|a s IH]; [exact I|]. cbn [span].
  destruct (N.eqb_spec a 93) as [->|Ha]; cbn [negb]; [reflexivity|].
  destruct (span _ s). exact IH.
Qed.

(** [/\[[^\]]+\]/] tried at the head of a text. *)
Lemma exec_at_bracketed_cons c s :
  exec_at re_bracketed (c :: s) =
  if c =? 91 then
    match span (fun c => negb (c =? 93)) s with
    | ([], _) => None
    | (_ :: _, []) => None
    | (run, _ :: r) =>
        Some {| whole := 91 :: run ++ [93]; group1 := run; rest := r |}
    end
  else None.
Proof.
  unfold exec_at, re_bracketed. cbn [re_open re_cls re_close eat]. unfold is_chr.
  destruct (N.eqb_spec c 91) as [->|Hc]; [|reflexivity].
  pose proof (span_stops_at_close s) as Hstop.
  destruct (span (fun c => negb (c =? 93)) s) as [[|a run] r]; [reflexivity|].
  cbn [snd] in Hstop. destruct r as [|d r]; [reflexivity|]. subst d.
  reflexivity.
Qed.

Lemma exec_at_bracketed_fails s :
  exec_at re_bracketed (91 :: s) = None ->
  (exists r, s = 93 :: r) \/ forallb (fun c => negb (c =? 93)) s = true.
Proof.
  rewrite exec_at_bracketed_cons. cbn [N.eqb Pos.eqb].
  pose proof (span_app (fun c => negb (c =? 93)) s) as Happ.
  pose proof (span_run (fun c => negb (c =? 93)) s) as Hrun.
  pose proof (span_stops_at_close s) as Hstop.
  destruct (span (fun c => negb (c =? 93)) s) as [[|a run] r];
    cbn [fst snd] in *.
  - intros _. destruct r as [|d r]; [right; rewrite <- Happ; reflexivity|].
    subst d. left. exists r. symmetry. exact Happ.
  - destruct r as [|d r]; [|discriminate]. intros _. right.
    rewrite <- Happ, app_nil_r. exact Hrun.
Qed.

Lemma exec_at_bracketed_other c s :
  c <> 91 -> exec_at re_bracketed (c :: s) = None.
Proof.
  intros H. rewrite exec_at_bracketed_cons. apply N.eqb_neq in H. rewrite H.
  reflexivity.
Qed.

Lemma exec_at_bracketed_tag w v :
  w <> [] -> forallb (fun c => negb (c =? 93)) w = true ->
  exec_at re_bracketed (91 :: w ++ 93 :: v) <> None.
Proof.
  intros Hne Hw. rewrite exec_at_bracketed_cons. cbn [N.eqb Pos.eqb].
  rewrite (span_exact _ w (93 :: v) Hw eq_refl).
  destruct w; [contradiction|discriminate].
Qed.

Lemma has_bracketed_tag_exec s :
  has_bracketed_tag s -> exec re_bracketed s <> None.
Proof.
  intros [u [w [v [Hne [Hw ->]]]]] H.
  rewrite exec_none in H. specialize (H u _ eq_refl).
  exact (exec_at_bracketed_tag w v Hne Hw H).
Qed.

Lemma remove_all_from_keeps (P : N -> bool) re s :
  forall k, forallb P s = true -> forallb P (remove_all_from k re s) = true.
Proof.
  induction s as [|c s IH]; intros k H; [reflexivity|].
  cbn [forallb] in H. apply andb_true_iff in H. destruct H as [Hc Hs].
  cbn [remove_all_from]. destruct k as [|k]; [|apply IH, Hs].
  destruct (exec_at re (c :: s)); [apply IH, Hs|].
  cbn [forallb]. rewrite Hc. apply IH, Hs.
Qed.

(** What [replace(/\[[^\]]+\]/g, '')] returns holds no match any more. *)
Lemma remove_all_from_clean s :
  forall k, exec re_bracketed (remove_all_from k re_bracketed s) = None.
Proof.
  induction s as [|c s IH]; intros k; [reflexivity|].
  cbn [remove_all_from]. destruct k as [|k]; [|apply IH].
  destruct (exec_at re_bracketed (c :: s)) as [m|] eqn:E; [apply IH|].
  rewrite exec_cons, (IH 0%nat).
  destruct (N.eq_dec c 91) as [->|Hc];
    [|rewrite (exec_at_bracketed_other c _ Hc); reflexivity].
  destruct (exec_at_bracketed_fails s E) as [[r ->]|Hs].
  - cbn [remove_all_from].
    rewrite (exec_at_bracketed_other 93 r ltac:(discriminate)).
    rewrite exec_at_bracketed_cons. reflexivity.
  - rewrite exec_at_bracketed_cons. cbn [N.eqb Pos.eqb].
    pose proof (remove_all_from_keeps _ re_bracketed s 0 Hs) as Hkeep.
    rewrite <- (app_nil_r (remove_all_from 0 re_bracketed s)).
    rewrite (span_exact _ _ [] Hkeep I).
    destruct (remove_all_from 0 re_bracketed s); reflexivity.
Qed.

Lemma has_bracketed_tag_infix a s b :
  has_bracketed_tag s -> has_bracketed_tag (a ++ s ++ b).
Proof.
  intros [u [w [v [Hne [Hw ->]]]]]. exists (a ++ u), w, (v ++ b).
  split; [exact Hne|]. split; [exact Hw|].
  rewrite <- !app_assoc. cbn [app]. rewrite <- !app_assoc. reflexivity.
Qed.

Lemma candidate_label uid line t uid' :
  candidate uid line = Some (t, uid') ->
  trimmed (name t) /\ ~ has_bracketed_tag (name t).
Proof.
  unfold candidate, task_of.
  destruct (exec re_task line) as [m|]; [|discriminate].
  assert (H : trimmed (trim (remove_all re_bracketed (trim (group1 m))))
              /\ ~ has_bracketed_tag
                     (trim (remove_all re_bracketed (trim (group1 m))))).
  { split; [apply trim_trimmed|]. intros Htag.
    destruct (trim_infix (remove_all re_bracketed (trim (group1 m))))
      as [a [b Hab]].
    apply (has_bracketed_tag_infix a _ b) in Htag. rewrite <- Hab in Htag.
    apply has_bracketed_tag_exec in Htag. apply Htag.
    apply remove_all_from_clean. }
  destruct (exec re_id (trim (group1 m))); intros [= <- _]; exact H.
Qed.

(** X13.  The label of every extracted task is free of leading and
    trailing white space and holds no bracketed tag any more: nowhere in it
    does an opening bracket come before a closing one with only characters
    other than [']'], and at least one, in between. *)
Theorem labels_are_stripped :
  forall (vault : list str) (t : Task),
    In t (getTasksFromNotes vault) ->
    trimmed (name t) /\ ~ has_bracketed_tag (name t).
Proof.
  intros vault t Hin.
  destruct (extracted_provenance vault t Hin) as [uid [line [uid' [_ Hc]]]].
  exact (candidate_label _ _ _ _ Hc).
Qed.

Lemma labels_are_stripped_witness :
  trimmed (lit "a") /\ ~ has_bracketed_tag (lit "a").
Proof.
  assert (Hin : In {| id := lit "t1"; name := lit "a";
                      dependencies := [lit "t2"]; completed := false |}
                   (getTasksFromNotes vault_tagged))
    by (vm_compute; left; reflexivity).
  exact (labels_are_stripped vault_tagged _ Hin).
Defined.

(** *** Order, and what the collection depends on *)

Lemma scan_lines_fresh lines :
  forall st,
    map id (tasks (fold_left scan_line lines st)) =
    map id (tasks st)
      ++ fresh (taskIds st) (map id (candidates (uniqueId st) lines)).
Proof.
  induction lines as [|l lines IH]; intros st.
  - cbn. rewrite app_nil_r. reflexivity.
  - cbn [fold_left candidates]. rewrite scan_line_candidate.
    destruct (candidate (uniqueId st) l) as [[t u]|]; [|apply IH].
    cbn [map fresh].
    destruct (has (taskIds st) (id t)); rewrite IH; cbn [tasks taskIds uniqueId];
      [reflexivity|].
    rewrite map_app, <- app_assoc. reflexivity.
Qed.

Lemma nodup_snoc (xs : list str) i :
  nodup (list_eq_dec N.eq_dec) (xs ++ [i]) =
  remove (list_eq_dec N.eq_dec) i (nodup (list_eq_dec N.eq_dec) xs) ++ [i].
Proof.
  induction xs as [|x xs IH].
  - reflexivity.
  - cbn [app nodup].
    destruct (in_dec (list_eq_dec N.eq_dec) x (xs ++ [i])) as [Hin|Hin];
      destruct (in_dec (list_eq_dec N.eq_dec) x xs) as [Hin'|Hin'].
    + exact IH.
    + rewrite IH. cbn [remove].
      destruct (list_eq_dec N.eq_dec i x) as [e|n]; [reflexivity|].
      exfalso. apply in_app_iff in Hin. destruct Hin as [Hin|[Hin|[]]];
        [contradiction|congruence].
    + exfalso. apply Hin. apply in_app_iff. now left.
    + rewrite IH. cbn [remove].
      destruct (list_eq_dec N.eq_dec i x) as [e|n]; [|reflexivity].
      exfalso. apply Hin. apply in_app_iff. right. left. exact e.
Qed.

Lemma remove_rev (i : str) l :
  remove (list_eq_dec N.eq_dec) i (rev l) =
  rev (remove (list_eq_dec N.eq_dec) i l).
Proof.
  induction l as [|x l IH]; [reflexivity|].
  cbn [rev remove]. rewrite remove_app, IH. cbn [remove].
  destruct (list_eq_dec N.eq_dec i x); [apply app_nil_r|reflexivity].
Qed.

Lemma has_cons i seen x :
  has (i :: seen) x = str_eqb i x || has seen x.
Proof. reflexivity. Qed.

Lemma filter_fresh_seen i seen K :
  has seen i = true ->
  filter (fun x => negb (has seen x)) (remove (list_eq_dec N.eq_dec) i K) =
  filter (fun x => negb (has seen x)) K.
Proof.
  intros Hi. induction K as [|x K IH]; [reflexivity|].
  cbn [remove filter]. destruct (list_eq_dec N.eq_dec i x) as [<-|n].
  - rewrite Hi. exact IH.
  - cbn [filter]. rewrite IH. reflexivity.
Qed.

Lemma filter_fresh_new i seen K :
  filter (fun x => negb (has (i :: seen) x)) K =
  filter (fun x => negb (has seen x)) (remove (list_eq_dec N.eq_dec) i K).
Proof.
  induction K as [|x K IH]; [reflexivity|].
  cbn [remove filter]. rewrite has_cons.
  destruct (list_eq_dec N.eq_dec i x) as [<-|n].
  - rewrite str_eqb_refl. exact IH.
  - rewrite (str_eqb_neq _ _ n). cbn [orb filter]. rewrite IH. reflexivity.
Qed.

Lemma fresh_filter ids :
  forall seen,
    fresh seen ids =
    filter (fun x => negb (has seen x))
           (rev (nodup (list_eq_dec N.eq_dec) (rev ids))).
Proof.
  induction ids as [|i ids IH]; intros seen; [reflexivity|].
  cbn [fresh rev]. rewrite nodup_snoc, rev_app_distr. cbn [rev app].
  rewrite <- remove_rev. cbn [filter].
  destruct (has seen i) eqn:Hi; cbn [negb].
  - rewrite IH. symmetry. apply filter_fresh_seen. exact Hi.
  - rewrite IH. f_equal. apply filter_fresh_new.
Qed.

Lemma filter_all (A : Type) (l : list A) : filter (fun _ => true) l = l.
Proof. induction l as [|x l IH]; [reflexivity|]. cbn. rewrite IH. reflexivity. Qed.

(** X14.  The identities of the collection are the identities the lines
    yield, each kept where it occurs first: the candidate identities in
    document order and then line order, with every repetition of an
    earlier one taken out. *)
Theorem extraction_keeps_first_occurrence_order :
  forall (vault : list str),
    map id (getTasksFromNotes vault) =
    rev (nodup (list_eq_dec N.eq_dec)
               (rev (map id (candidates 1 (all_lines vault))))).
Proof.
  intros vault. unfold getTasksFromNotes.
  rewrite scan_files_lines, scan_lines_fresh. cbn [tasks taskIds uniqueId build0 map app].
  rewrite fresh_filter. apply filter_all.
Qed.

Lemma firstn_exact_list (A : Type) (x r : list A) :
  firstn (length x) (x ++ r) = x.
Proof.
  rewrite firstn_app, Nat.sub_diag, firstn_all. cbn [firstn]. apply app_nil_r.
Qed.

(** X15.  Documents added at the end of the vault leave the tasks
    extracted from the earlier documents as they are, identities
    included: the collection of the longer vault begins with the
    collection of the shorter one. *)
Theorem extraction_prefix_stable :
  forall (vault more : list str),
    firstn (length (getTasksFromNotes vault)) (getTasksFromNotes (vault ++ more)) =
    getTasksFromNotes vault.
Proof.
  intros vault more. unfold getTasksFromNotes. rewrite fold_left_app.
  rewrite (scan_files_lines more).
  destruct (scan_lines_extends (all_lines more) (fold_left scan_file vault build0))
    as [extra ->].
  apply firstn_exact_list.
Qed.

Lemma scan_lines_recognised lines :
  forall st,
    fold_left scan_line (filter recognised lines) st =
    fold_left scan_line lines st.
Proof.
  induction lines as [|l lines IH]; intros st; [reflexivity|].
  cbn [filter fold_left]. destruct (recognised l) eqn:E.
  - cbn [fold_left]. apply IH.
  - rewrite IH. f_equal. unfold scan_line, recognised in *.
    destruct (exec re_task l); [discriminate|reflexivity].
Qed.

Lemma all_lines_no_nl vault : Forall no_nl (all_lines vault).
Proof.
  unfold all_lines. induction vault as [|d vault IH]; [constructor|].
  cbn [flat_map]. apply Forall_app. split; [apply split_nl_no_nl|exact IH].
Qed.

Lemma Forall_filter (A : Type) (P : A -> Prop) f (l : list A) :
  Forall P l -> Forall P (filter f l).
Proof.
  induction 1 as [|x l Hx _ IH]; [constructor|]. cbn [filter].
  destruct (f x); [constructor; assumption|exact IH].
Qed.

(** X16.  The collection depends on the vault only through the sequence of
    its task lines: the single document made of the recognised lines, in
    order, gives the same collection, whatever the document boundaries and
    the other lines were. *)
Theorem extraction_depends_on_task_lines_only :
  forall (vault : list str),
    getTasksFromNotes [join_nl (filter recognised (all_lines vault))] =
    getTasksFromNotes vault.
Proof.
  intros vault. unfold getTasksFromNotes. rewrite !scan_files_lines.
  rewrite <- (scan_lines_recognised (all_lines vault)).
  unfold all_lines at 1. cbn [flat_map]. rewrite app_nil_r.
  destruct (filter recognised (all_lines vault)) as [|l ls] eqn:E; [reflexivity|].
  rewrite split_join; [reflexivity|discriminate|].
  rewrite <- E. apply Forall_filter, all_lines_no_nl.
Qed.

(** *** The earlier version *)

Lemma earlier_scan_line st st0 line :
  V0.tasks st0 = map forget_flag (tasks st) ->
  V0.taskIds st0 = taskIds st ->
  V0.uniqueId st0 = uniqueId st ->
  V0.tasks (V0.scan_line st0 line) = map forget_flag (tasks (scan_line st line))
  /\ V0.taskIds (V0.scan_line st0 line) = taskIds (scan_line st line)
  /\ V0.uniqueId (V0.scan_line st0 line) = uniqueId (scan_line st line).
Proof.
  intros Ht Hi Hu. unfold V0.scan_line, scan_line. rewrite Hi, Hu, Ht.
  destruct (exec re_task line) as [m|]; [|auto].
  destruct (exec re_id (trim (group1 m))) as [m'|];
    match goal with |- context [has ?a ?b] => destruct (has a b) end;
    cbn [negb V0.tasks V0.taskIds V0.uniqueId tasks taskIds uniqueId];
    rewrite ?map_app; auto.
Qed.

Lemma earlier_scan_lines lines :
  forall st st0,
    V0.tasks st0 = map forget_flag (tasks st) ->
    V0.taskIds st0 = taskIds st ->
    V0.uniqueId st0 = uniqueId st ->
    V0.tasks (fold_left V0.scan_line lines st0) =
    map forget_flag (tasks (fold_left scan_line lines st))
    /\ V0.taskIds (fold_left V0.scan_line lines st0) =
       taskIds (fold_left scan_line lines st)
    /\ V0.uniqueId (fold_left V0.scan_line lines st0) =
       uniqueId (fold_left scan_line lines st).
Proof.
  induction lines as [|l lines IH]; intros st st0 Ht Hi Hu; [auto|].
  cbn [fold_left].
  destruct (earlier_scan_line st st0 l Ht Hi Hu) as [Ht' [Hi' Hu']].
  apply IH; assumption.
Qed.

Lemma earlier_scan_files vault :
  forall st st0,
    V0.tasks st0 = map forget_flag (tasks st) ->
    V0.taskIds st0 = taskIds st ->
    V0.uniqueId st0 = uniqueId st ->
    V0.tasks (fold_left V0.scan_file vault st0) =
    map forget_flag (tasks (fold_left scan_file vault st)).
Proof.
  induction vault as [|d vault IH]; intros st st0 Ht Hi Hu; [exact Ht|].
  cbn [fold_left]. unfold V0.scan_file at 2, scan_file at 2.
  destruct (earlier_scan_lines (split_nl d) st st0 Ht Hi Hu) as [Ht' [Hi' Hu']].
  apply IH; assumption.
Qed.

Lemma earlier_edges ts : V0.edges_of (map forget_flag ts) = edges_of ts.
Proof.
  unfold V0.edges_of, edges_of. induction ts as [|t ts IH]; [reflexivity|].
  cbn [map flat_map]. rewrite IH. reflexivity.
Qed.

(** X17.  The earlier version of the plugin extracts the same tasks from
    the same vault, in the same order, each with the same identity, label
    and dependencies, and so projects the same edges: [main.ts] adds the
    completion flag and changes nothing else of the extraction. *)
Theorem earlier_version_extracts_same_tasks :
  forall (vault : list str),
    V0.getTasksFromNotes vault = map forget_flag (getTasksFromNotes vault)
    /\ V0.edges_of (V0.getTasksFromNotes vault) =
       edges_of (getTasksFromNotes vault)
    /\ map V0.node_id (V0.nodes_of (V0.getTasksFromNotes vault)) =
       map node_id (nodes_of (getTasksFromNotes vault))
    /\ map V0.label (V0.nodes_of (V0.getTasksFromNotes vault)) =
       map label (nodes_of (getTasksFromNotes vault)).
Proof.
  intros vault.
  assert (H : V0.getTasksFromNotes vault =
              map forget_flag (getTasksFromNotes vault)).
  { unfold V0.getTasksFromNotes, getTasksFromNotes.
    apply earlier_scan_files; reflexivity. }
  split; [exact H|]. rewrite H. split; [apply earlier_edges|].
  unfold V0.nodes_of, nodes_of. rewrite !map_map. split; reflexivity.
Qed.

(** *** The dependency a splice declares *)

Lemma one_line_app a b : one_line (a ++ b) <-> one_line a /\ one_line b.
Proof. unfold one_line. rewrite forallb_app, andb_true_iff. tauto. Qed.

Lemma span_all cls s : forallb cls s = true -> span cls s = (s, []).
Proof.
  intros H. rewrite <- (app_nil_r s) at 1. apply span_exact; [exact H|exact I].
Qed.

Lemma word_one_line A : word A -> one_line A.
Proof.
  unfold word, one_line. intros H. apply forallb_forall. intros c Hc.
  rewrite forallb_forall in H. specialize (H c Hc).
  destruct (is_line_terminator c) eqn:E; [|reflexivity].
  exfalso. unfold is_line_terminator in E.
  repeat (apply orb_true_iff in E; destruct E as [E|E]);
    apply N.eqb_eq in E; subst c; discriminate H.
Qed.

(** On a line without line terminators the capture of a match at [v] is
    all of [v] past the marker. *)
Lemma capture_to_end v m :
  one_line v -> exec_at re_task v = Some m -> group1 m = skipn 6 v.
Proof.
  intros Hv. rewrite exec_at_task. destruct (marker_space v); [|discriminate].
  assert (Hs : one_line (skipn 6 v)).
  { rewrite <- (firstn_skipn 6 v) in Hv. apply one_line_app in Hv. apply Hv. }
  rewrite (span_all _ _ Hs).
  destruct (skipn 6 v) as [|c r]; [discriminate|].
  intros [= <-]. reflexivity.
Qed.

Lemma marker_space_head v : marker_space v = true -> exists r, v = 45 :: r.
Proof.
  unfold marker_space. norm_lit. destruct v as [|c r]; [discriminate|].
  cbn [startsWith]. destruct (N.eqb_spec c 45) as [->|]; [|discriminate].
  intros _. exists r. reflexivity.
Qed.

(** A marker that starts before a dependency tag ends before it. *)
Lemma marker_before_tag q Z :
  marker_space (q ++ 91 :: 100 :: Z) = true -> (6 <= length q)%nat.
Proof.
  unfold marker_space. norm_lit.
  destruct q as [|a1 [|a2 [|a3 [|a4 [|a5 [|a6 q]]]]]];
    cbn [app startsWith length]; split_tests; try discriminate; intros _; lia.
Qed.

Lemma trimStart_keeps u p v :
  match p with [] => False | a :: _ => is_ws a = false end ->
  exists u1, trimStart (u ++ p ++ v) = u1 ++ p ++ v.
Proof.
  intros Hp. induction u as [|c u IH].
  - exists []. cbn [app]. apply trimStart_fix.
    destruct p as [|a p]; [contradiction|exact Hp].
  - cbn [app trimStart]. destruct (is_ws c); [exact IH|].
    exists (c :: u). reflexivity.
Qed.

(** Trimming keeps an occurrence whose two ends are no white space. *)
Lemma includes_trim_keeps s a p :
  is_ws a = false ->
  match rev (a :: p) with [] => False | z :: _ => is_ws z = false end ->
  includes s (a :: p) = true -> includes (trim s) (a :: p) = true.
Proof.
  intros Ha Hz H. apply includes_iff in H. destruct H as [u [v ->]].
  unfold trim, trimEnd.
  destruct (trimStart_keeps u (a :: p) v Ha) as [u1 ->].
  rewrite !rev_app_distr, <- app_assoc.
  destruct (trimStart_keeps (rev v) (rev (a :: p)) (rev u1) Hz) as [v1 ->].
  rewrite !rev_app_distr, !rev_involutive, <- app_assoc.
  apply includes_iff. exists u1, (rev v1). reflexivity.
Qed.

Lemma includes_trim_dependsOn_tag s g :
  includes s (dependsOn_tag g) = true ->
  includes (trim s) (dependsOn_tag g) = true.
Proof.
  rewrite dependsOn_tag_eq. apply includes_trim_keeps; [reflexivity|].
  cbn [rev]. rewrite !rev_app_distr. reflexivity.
Qed.

Lemma dependsOn_tag_no_dash g :
  word g -> forallb (fun c => negb (c =? 45)) (dependsOn_tag g ++ [93]) = true.
Proof.
  intros Hg. rewrite dependsOn_tag_eq. cbn [app forallb].
  rewrite !forallb_app, (word_no_dash g Hg). reflexivity.
Qed.

(** Where the task expression matches in a line that ends in a spliced
    dependency tag, the tag lies inside the capture. *)
Lemma spliced_capture init g u v m :
  word g -> one_line init ->
  init ++ 32 :: dependsOn_tag g ++ [93] = u ++ v ->
  exec_at re_task v = Some m ->
  includes (group1 m) (dependsOn_tag g) = true.
Proof.
  intros Hg Hinit Huv Hm.
  assert (Hline : one_line (u ++ v)).
  { rewrite <- Huv. apply one_line_app. split; [exact Hinit|].
    unfold dependsOn_tag.
    change (one_line ([32] ++ (lit "[dependsOn:" ++ g ++ lit "]") ++ [93])).
    repeat (apply one_line_app; split); try reflexivity.
    apply word_one_line, Hg. }
  apply one_line_app in Hline. destruct Hline as [_ Hv].
  rewrite (capture_to_end v m Hv Hm).
  destruct (exec_at_task_inv v m Hm) as [Hms _].
  change (init ++ 32 :: dependsOn_tag g ++ [93])
    with (init ++ [32] ++ (dependsOn_tag g ++ [93])) in Huv.
  rewrite app_assoc in Huv. symmetry in Huv.
  apply app_eq_app in Huv. destruct Huv as [l [[Hu Hv']|[Hu Hv']]].
  - (* the match starts inside the spliced tag *)
    exfalso. destruct (marker_space_head v Hms) as [r ->].
    pose proof (dependsOn_tag_no_dash g Hg) as Hd. rewrite Hv' in Hd.
    rewrite forallb_app in Hd. apply andb_true_iff in Hd.
    destruct Hd as [_ Hd]. discriminate Hd.
  - subst v.
    assert (Hlen : (6 <= length l)%nat).
    { rewrite dependsOn_tag_eq in Hms. cbn [app] in Hms.
      exact (marker_before_tag l _ Hms). }
    rewrite skipn_app.
    replace (6 - length l)%nat with 0%nat by lia. cbn [skipn].
    apply includes_iff. exists (skipn 6 l), [93]. reflexivity.
Qed.

(** A task line stays one when the text after its last character but one
    is replaced by a space and more. *)
Lemma recognised_spliced init Y :
  recognised (init ++ [93]) = true -> recognised (init ++ 32 :: Y) = true.
Proof.
  unfold recognised. intros H.
  destruct (exec re_task (init ++ [93])) as [m|] eqn:E; [clear H|discriminate].
  destruct (exec_found _ _ _ E) as [u [v [Huv Hv]]].
  destruct (exec_at_task_inv v m Hv) as [Hms [Hsk Hne]].
  assert (Hv0 : v <> []) by (intros ->; discriminate Hms).
  destruct (exists_last Hv0) as [p [z Hp]]. subst v.
  rewrite app_assoc in Huv. apply app_inj_tail in Huv. destruct Huv as [-> <-].
  assert (Hm' : exists m', exec_at re_task (p ++ 32 :: Y) = Some m').
  { rewrite exec_at_task. rewrite exec_at_task in Hv.
    revert Hv. unfold marker_space. norm_lit.
    destruct p as [|a1 [|a2 [|a3 [|a4 [|a5 [|a6 [|a7 p]]]]]]];
      cbn [app startsWith skipn span]; split_tests; try discriminate;
      cbn [span]; intros Hv;
      repeat match goal with
             | |- context [negb (is_line_terminator ?a)] =>
                 destruct (negb (is_line_terminator a)); try discriminate
             | |- context [span ?f ?x] => destruct (span f x)
             end;
      eexists; reflexivity. }
  destruct Hm' as [m' Hm'].
  rewrite <- app_assoc.
  destruct (exec_some_app re_task u _ m' Hm') as [m'' ->]. reflexivity.
Qed.

(** X18.  When [updateTaskDependency] splices the tag into a task line
    without line terminators that ends in [']'], the line stays a task
    line and the task read from it depends on [fromId]. *)
Theorem spliced_dependency_is_extracted :
  forall (fromId toId init : str) (uid : N),
    word fromId -> fromId <> [] ->
    one_line init ->
    recognised (init ++ [93]) = true ->
    includes (init ++ [93]) (id_tag toId) = true ->
    includes (init ++ [93]) (dependsOn_tag fromId) = false ->
    exists t uid',
      candidate uid (dependency_line fromId toId (init ++ [93])) = Some (t, uid')
      /\ In fromId (dependencies t).
Proof.
  intros A B init uid HA Hne Hinit Hrec Hi Hd.
  assert (Hline : dependency_line A B (init ++ [93]) =
                  init ++ 32 :: dependsOn_tag A ++ [93]).
  { unfold dependency_line. rewrite Hi, Hd, replace_final_bracket_last.
    rewrite (dependency_template_plain A _ _ _ HA).
    rewrite dependsOn_tag_eq. cbn [app]. norm_lit. cbn [app].
    rewrite <- !app_assoc. reflexivity. }
  rewrite Hline.
  pose proof (recognised_spliced init (dependsOn_tag A ++ [93]) Hrec) as Hr.
  unfold recognised in Hr.
  destruct (exec re_task (init ++ 32 :: dependsOn_tag A ++ [93])) as [m|] eqn:E;
    [clear Hr|discriminate].
  destruct (candidate uid (init ++ 32 :: dependsOn_tag A ++ [93]))
    as [[t uid']|] eqn:Ec.
  - exists t, uid'. split; [reflexivity|].
    apply (declared_dependency_extracted uid _ m A t uid' E HA Hne); [|exact Ec].
    apply includes_trim_dependsOn_tag.
    destruct (exec_found _ _ _ E) as [u [v [Huv Hv]]].
    exact (spliced_capture init A u v m HA Hinit Huv Hv).
  - unfold candidate in Ec. rewrite E in Ec. discriminate Ec.
Qed.

Lemma spliced_dependency_is_extracted_witness :
  exists t uid',
    candidate 1 (dependency_line (lit "a") (lit "b")
                   (lit "- [ ] Ship [id:b] [prio:1" ++ [93])) = Some (t, uid')
    /\ In (lit "a") (dependencies t).
Proof.
  apply (spliced_dependency_is_extracted (lit "a") (lit "b")
           (lit "- [ ] Ship [id:b] [prio:1") 1);
    solve [reflexivity | discriminate].
Defined.
